(** * zcount: counting zero-bytes in files or stdin

    A shallow embedding of [zcount.c] and the properties of its byte
    counter [countZB], its argp callback [parse_opt] and [main].

    Conventions of the embedding.
    - C integers are [Z]; [unsigned long] is 64 bits wide and [int] 32 bits
      (the LP64 data model of glibc on x86-64, the C library that ships
      [<argp.h>]); where the source increments a counter the wrap-around of
      its type is written out.
    - plain [char] is signed, as in the x86 and x86-64 ABIs.
    - a [FILE *] open for reading is the list of the bytes not yet read.
    - [fprintf] appends a line to a log of (stream, text) pairs. *)

From Stdlib Require Import ZArith List String Ascii Bool Lia.
From Stdlib Require Import Strings.Byte DecimalString.
Import ListNotations.

#[local] Open Scope Z_scope.

(** ** <limits.h>, <stdio.h> *)

Definition ULONG_MAX : Z := 2 ^ 64 - 1.
Definition INT_MAX : Z := 2 ^ 31 - 1.
Definition EOF : Z := -1.

(** Conversion to [unsigned long]: reduction modulo 2^64. *)
Definition to_ulong (x : Z) : Z := x mod (ULONG_MAX + 1).

(** Conversion of an [int] to (signed) [char], as gcc defines it: reduction
    modulo 2^8 into [-128, 127]. *)
Definition to_char (x : Z) : Z := (x + 128) mod 256 - 128.

(** An input stream: the bytes that are still to be read. *)
Definition FILE : Type := list byte.

Definition byte_val (b : byte) : Z := Z.of_N (Byte.to_N b).

(** [getc]: the next byte as an [unsigned char] converted to [int], or [EOF]
    at the end of the stream; the stream advances by the byte read. *)
Definition getc (fp : FILE) : Z * FILE :=
  match fp with
  | [] => (EOF, [])
  | b :: rest => (byte_val b, rest)
  end.

(** ** The byte counter *)

(** The loop of [countZB],
      [while ((c = getc(fp)) != EOF && zeros < upper && zeros < ULONG_MAX)
         if (c == '\0') zeros++;]
    by recursion on the unread bytes.  The [match] is the call of [getc]
    (see [countZB_loop_getc]); the result is the final [zeros] and the
    stream as the loop leaves it. *)
Fixpoint countZB_loop (upper zeros : Z) (fp : FILE) : Z * FILE :=
  match fp with
  | [] => (zeros, [])
  | b :: rest =>
      let c := to_char (byte_val b) in
      if negb (c =? EOF) && (zeros <? upper) && (zeros <? ULONG_MAX)
      then countZB_loop upper (if c =? 0 then to_ulong (zeros + 1) else zeros) rest
      else (zeros, rest)
  end.

(** [countZB(fp, upper)], with the stream it leaves behind. *)
Definition countZB_run (fp : FILE) (upper : Z) : Z * FILE :=
  let upper := if upper =? 0 then ULONG_MAX else upper in
  countZB_loop upper 0 fp.

(** The value [countZB] returns. *)
Definition countZB (fp : FILE) (upper : Z) : Z := fst (countZB_run fp upper).

(** Number of bytes [countZB] takes from the stream. *)
Definition consumed (fp : FILE) (upper : Z) : nat :=
  (List.length fp - List.length (snd (countZB_run fp upper)))%nat.

(** *** The loop as a [while] over [getc]

    The same loop with the call of [getc] and the conversion to [char] left
    open, run for at most [fuel] tests of its condition; [None] when it has
    not left the loop by then.  [to_c] is the conversion from [int] to
    [char]: [to_char] where [char] is signed, [to_uchar] where it is
    unsigned. *)
Definition to_uchar (x : Z) : Z := x mod 256.

Fixpoint countZB_while (to_c : Z -> Z) (fuel : nat) (upper zeros : Z) (fp : FILE)
  : option (Z * FILE) :=
  match fuel with
  | O => None
  | S fuel' =>
      let '(i, rest) := getc fp in
      let c := to_c i in
      if negb (c =? EOF) && (zeros <? upper) && (zeros <? ULONG_MAX)
      then countZB_while to_c fuel' upper
             (if c =? 0 then to_ulong (zeros + 1) else zeros) rest
      else Some (zeros, rest)
  end.

(** *** Reference notions for the counter *)

Definition is_zero_byte (b : byte) : bool := byte_val b =? 0.

(** The number of zero-valued bytes of a stream. *)
Fixpoint zero_bytes (s : list byte) : Z :=
  match s with
  | [] => 0
  | b :: rest => (if is_zero_byte b then 1 else 0) + zero_bytes rest
  end.

(** Length of the shortest prefix of [s] holding [n] zero bytes, for
    [0 < n]: the place where a count of zero bytes reaches [n].  [None] when
    [s] has fewer than [n] of them. *)
Fixpoint cap_point (n : Z) (s : list byte) : option nat :=
  match s with
  | [] => None
  | b :: rest =>
      if is_zero_byte b
      then if n <=? 1 then Some 1%nat
           else option_map S (cap_point (n - 1) rest)
      else option_map S (cap_point n rest)
  end.

(** The byte that [char c = getc(fp)] turns into [EOF]. *)
Definition is_eof_byte (b : byte) : bool := to_char (byte_val b) =? EOF.

(** ** <errno.h>, <string.h>, <stdlib.h> *)

Definition E2BIG : Z := 7.
Definition EINVAL : Z := 22.

Definition nl : string := String "010"%char EmptyString.

(** [printf]'s [%lu]. *)
Definition fmt_lu (n : Z) : string := NilZero.string_of_uint (N.to_uint (Z.to_N n)).

(** [strerror], as glibc words it. *)
Definition strerror (errno : Z) : string :=
  if errno =? 2 then "No such file or directory"
  else if errno =? 13 then "Permission denied"
  else if errno =? 21 then "Is a directory"
  else ("Unknown error " ++ fmt_lu errno)%string.

Definition char_code (c : ascii) : Z := Z.of_N (N_of_ascii c).

Definition isspace (c : ascii) : bool :=
  let n := char_code c in (n =? 32) || ((9 <=? n) && (n <=? 13)).

(** Value of a character as a digit of a numeral, up to base 36. *)
Definition digit_val (c : ascii) : option Z :=
  let n := char_code c in
  if (48 <=? n) && (n <=? 57) then Some (n - 48)
  else if (97 <=? n) && (n <=? 122) then Some (n - 87)
  else if (65 <=? n) && (n <=? 90) then Some (n - 55)
  else None.

Fixpoint skip_space (s : string) : string :=
  match s with
  | String c rest => if isspace c then skip_space rest else s
  | EmptyString => s
  end.

(** The longest run of base-[base] digits at the head of [s]: its value on
    top of [acc], how many digits it has, and what follows it. *)
Fixpoint scan_digits (base acc : Z) (s : string) : Z * nat * string :=
  match s with
  | String c rest =>
      match digit_val c with
      | Some d =>
          if d <? base
          then let '(v, n, tail) := scan_digits base (acc * base + d) rest in
               (v, S n, tail)
          else (acc, O, s)
      | None => (acc, O, s)
      end
  | EmptyString => (acc, O, s)
  end.

Definition is_x (c : ascii) : bool := (char_code c =? 120) || (char_code c =? 88).

(** An optional sign: whether it is a minus, and what follows it. *)
Definition strip_sign (s : string) : bool * string :=
  match s with
  | String c rest =>
      if Ascii.eqb c "-" then (true, rest)
      else if Ascii.eqb c "+" then (false, rest)
      else (false, s)
  | EmptyString => (false, s)
  end.

(** The numeral at the head of [s] when the base is to be found from its
    prefix: [0x] or [0X] and hexadecimal digits, [0] and octal digits, or
    decimal digits.  The result is its value and what follows it, [None]
    when there is no numeral.  In [0x] without a hexadecimal digit the
    numeral is the [0] alone. *)
Definition scan_numeral (s : string) : option (Z * string) :=
  match s with
  | String c after0 =>
      if Ascii.eqb c "0" then
        match after0 with
        | String x hex =>
            if is_x x then
              match scan_digits 16 0 hex with
              | (_, O, _) => Some (0, after0)
              | (v, _, tail) => Some (v, tail)
              end
            else let '(v, _, tail) := scan_digits 8 0 s in Some (v, tail)
        | EmptyString => Some (0, EmptyString)
        end
      else
        match scan_digits 10 0 s with
        | (_, O, _) => None
        | (v, _, tail) => Some (v, tail)
        end
  | EmptyString => None
  end.

(** [strtoul(nptr, &tail, 0)] of ISO C: white space, an optional sign, then
    a hexadecimal, octal or decimal numeral.  The result is the value and
    the unparsed tail.  A value that does not fit gives [ULONG_MAX]; a minus
    sign negates in [unsigned long]; with no numeral at all the value is 0
    and the tail is [nptr] itself. *)
Definition strtoul (nptr : string) : Z * string :=
  let '(negative, s) := strip_sign (skip_space nptr) in
  match scan_numeral s with
  | Some (v, tail) =>
      (if ULONG_MAX <? v then ULONG_MAX
       else if negative then to_ulong (- v) else v, tail)
  | None => (0, nptr)
  end.

(** How many characters of [nptr] lie before the tail [strtoul] leaves. *)
Definition strtoul_consumed (nptr : string) : nat :=
  (String.length nptr - String.length (snd (strtoul nptr)))%nat.

(** [*s != '\0'] for a C string [s]. *)
Definition nonempty (s : string) : bool :=
  match s with EmptyString => false | String _ _ => true end.

(** ** <argp.h> *)

Definition ARGP_ERR_UNKNOWN : Z := E2BIG.
Definition ARGP_KEY_ARG : Z := 0.
Definition ARGP_KEY_END : Z := 0x1000001.
Definition ARGP_KEY_NO_ARGS : Z := 0x1000002.
Definition ARGP_KEY_INIT : Z := 0x1000003.
Definition ARGP_KEY_SUCCESS : Z := 0x1000004.
Definition ARGP_KEY_ERROR : Z := 0x1000005.
Definition ARGP_KEY_FINI : Z := 0x1000007.

(** The option keys of [options]: the characters ['v'], ['u'], ['l']. *)
Definition key_v : Z := 118.
Definition key_u : Z := 117.
Definition key_l : Z := 108.

(** ** The run configuration and the world around it *)

(** [struct arguments]. *)
Record arguments : Type := mkArguments {
  verbosity : Z;   (* int *)
  upper : Z;       (* unsigned long int *)
  lower : Z;       (* unsigned long int *)
  retcode : Z      (* int *)
}.

Definition set_verbosity (v : Z) (a : arguments) : arguments :=
  mkArguments v (upper a) (lower a) (retcode a).
Definition set_upper (v : Z) (a : arguments) : arguments :=
  mkArguments (verbosity a) v (lower a) (retcode a).
Definition set_lower (v : Z) (a : arguments) : arguments :=
  mkArguments (verbosity a) (upper a) v (retcode a).
Definition set_retcode (v : Z) (a : arguments) : arguments :=
  mkArguments (verbosity a) (upper a) (lower a) v.

(** The fields of [struct argp_state] that [parse_opt] reads. *)
Record argp_state : Type := mkState {
  input : arguments;
  argv : list string;
  next : nat
}.

Inductive stream : Type := stdout | stderr.

(** What [fopen(name, "r")] gives: a stream, or [NULL] with [errno] set. *)
Inductive fopen_result : Type :=
| Opened (fp : FILE)
| OpenFailed (errno : Z).

(** The files that can be opened, standard input, and what has been
    printed so far (oldest line first). *)
Record world : Type := mkWorld {
  fopen : string -> fopen_result;
  stdin : FILE;
  printed : list (stream * string)
}.

Definition fprintf (to : stream) (text : string) (w : world) : world :=
  mkWorld (fopen w) (stdin w) (printed w ++ [(to, text)]).

Definition set_stdin (fp : FILE) (w : world) : world :=
  mkWorld (fopen w) fp (printed w).

(** *** The texts [parse_opt] prints *)

Definition msg_not_integer (word : string) : string :=
  ("'" ++ word ++ "' is not a non-negative integer" ++ nl)%string.
Definition msg_file_corrupted (name : string) (zeros : Z) : string :=
  (name ++ ": seems corrupted, " ++ fmt_lu zeros ++ " zero-bytes counted" ++ nl)%string.
Definition msg_file_counted (name : string) (zeros : Z) : string :=
  (name ++ ": " ++ fmt_lu zeros ++ " zero-bytes counted" ++ nl)%string.
Definition msg_open_failed (name : string) (errno : Z) : string :=
  (name ++ ": " ++ strerror errno ++ nl)%string.
Definition msg_stdin_corrupted (zeros : Z) : string :=
  ("data in stdin seems corrupted, " ++ fmt_lu zeros ++ " zero-bytes counted" ++ nl)%string.
Definition msg_stdin_counted (zeros : Z) : string :=
  (fmt_lu zeros ++ " zero-bytes in stdin counted" ++ nl)%string.
Definition msg_terminated : string :=
  ("Argument parsing has been terminated due to an error!" ++ nl)%string.

(** ** The argp callback *)

(** [parse_opt(key, arg, state)]: the error code it returns, the
    [struct arguments] behind [state->input] and the world afterwards.  The
    [switch] is a chain of tests on [key]. *)
Definition parse_opt (key : Z) (arg : string) (state : argp_state) (w : world)
  : Z * arguments * world :=
  let a := input state in
  if key =? ARGP_KEY_INIT then
    (0, mkArguments 0 0 1 0, w)
  else if key =? key_v then
    let a := if verbosity a <? INT_MAX then set_verbosity (verbosity a + 1) a else a in
    (0, a, w)
  else if key =? key_u then
    let '(v, tail) := strtoul arg in
    let a := set_upper v a in
    if nonempty tail
    then (EINVAL, a,
          fprintf stderr (msg_not_integer (nth (next state - 1) (argv state) EmptyString)) w)
    else (0, a, w)
  else if key =? key_l then
    let '(v, tail) := strtoul arg in
    let a := set_lower v a in
    if nonempty tail
    then (EINVAL, a,
          fprintf stderr (msg_not_integer (nth (next state - 1) (argv state) EmptyString)) w)
    else (0, a, w)
  else if key =? ARGP_KEY_ARG then
    match fopen w arg with
    | Opened fp =>
        let zeros := countZB fp (upper a) in
        let a := if (upper a <? lower a) && negb (upper a =? 0)
                 then set_lower (upper a) a else a in
        let a := if negb (zeros =? 0) && (retcode a <? INT_MAX)
                 then set_retcode (retcode a + 1) a else a in
        let w := if (verbosity a =? 1) && (lower a <=? zeros)
                 then fprintf stderr (msg_file_corrupted arg zeros) w else w in
        let w := if 2 <=? verbosity a
                 then if zeros <? lower a
                      then fprintf stdout (msg_file_counted arg zeros) w
                      else fprintf stderr (msg_file_corrupted arg zeros) w
                 else w in
        (0, a, w)
    | OpenFailed errno =>
        (0, a, fprintf stderr (msg_open_failed arg errno) w)
    end
  else if key =? ARGP_KEY_NO_ARGS then
    let '(zeros, rest) := countZB_run (stdin w) (upper a) in
    let w := set_stdin rest w in
    let a := if (upper a <? lower a) && negb (upper a =? 0)
             then set_lower (upper a) a else a in
    let a := if negb (zeros =? 0) && (retcode a <? INT_MAX)
             then set_retcode (retcode a + 1) a else a in
    let w := if (verbosity a =? 1) && (lower a <=? zeros)
             then fprintf stderr (msg_stdin_corrupted zeros) w else w in
    let w := if 2 <=? verbosity a
             then if zeros <? lower a
                  then fprintf stdout (msg_stdin_counted zeros) w
                  else fprintf stderr (msg_stdin_corrupted zeros) w
             else w in
    (0, a, w)
  else if key =? ARGP_KEY_ERROR then
    (0, a, fprintf stderr msg_terminated w)
  else
    (ARGP_ERR_UNKNOWN, a, w).

(** ** argp_parse and main *)

(** What [argp_parse] hands to the callback for one command-line item: an
    option of [options] with its argument, or a non-option argument.
    [next] is [state->next] at the call, the index in [argv] after the
    words consumed so far. *)
Inductive argp_event : Type :=
| Option_v (next : nat)
| Option_u (arg : string) (next : nat)
| Option_l (arg : string) (next : nat)
| Argument (arg : string) (next : nat).

Definition event_key (e : argp_event) : Z :=
  match e with
  | Option_v _ => key_v
  | Option_u _ _ => key_u
  | Option_l _ _ => key_l
  | Argument _ _ => ARGP_KEY_ARG
  end.

Definition event_arg (e : argp_event) : string :=
  match e with
  | Option_v _ => EmptyString
  | Option_u arg _ | Option_l arg _ | Argument arg _ => arg
  end.

Definition event_next (e : argp_event) : nat :=
  match e with
  | Option_v n | Option_u _ n | Option_l _ n | Argument _ n => n
  end.

Definition is_argument (e : argp_event) : bool :=
  match e with Argument _ _ => true | _ => false end.

(** One callback call from [argp_parse]. *)
Definition deliver (words : list string) (e : argp_event) (a : arguments) (w : world)
  : Z * arguments * world :=
  parse_opt (event_key e) (event_arg e) (mkState a words (event_next e)) w.

(** The calls for the items of the command line, in order.  As <argp.h>
    documents, a non-zero result of the callback stops parsing at once and
    becomes the result of [argp_parse].  [nargs] counts the non-option
    arguments handled. *)
Fixpoint parse_events (words : list string) (evs : list argp_event)
  (a : arguments) (w : world) (nargs : nat) : Z * arguments * world * nat :=
  match evs with
  | [] => (0, a, w, nargs)
  | e :: rest =>
      let '(err, a, w) := deliver words e a w in
      if err =? 0
      then parse_events words rest a w (if is_argument e then S nargs else nargs)
      else (err, a, w, nargs)
  end.

(** [argp_parse(&argp, argc, argv, 0, 0, &arguments)] on a command line
    whose items are [evs]: the key sequence is
    [INIT (opt | ARG)... \[NO_ARGS\] END SUCCESS], or, after an error,
    [INIT (opt | ARG)... ERROR]; [FINI] comes last.  [ARGP_ERR_UNKNOWN] from
    the special keys counts as success. *)
Definition argp_parse (words : list string) (evs : list argp_event)
  (a : arguments) (w : world) : Z * arguments * world :=
  let argc := List.length words in
  let '(_, a, w) := parse_opt ARGP_KEY_INIT EmptyString (mkState a words 0) w in
  let '(err, a, w, nargs) := parse_events words evs a w 0 in
  let '(err, a, w) :=
    if err =? 0 then
      let '(err, a, w) :=
        match nargs with
        | O => parse_opt ARGP_KEY_NO_ARGS EmptyString (mkState a words argc) w
        | S _ => (0, a, w)
        end in
      if (err =? 0) || (err =? ARGP_ERR_UNKNOWN) then
        let '(err, a, w) := parse_opt ARGP_KEY_END EmptyString (mkState a words argc) w in
        (if err =? ARGP_ERR_UNKNOWN then 0 else err, a, w)
      else (err, a, w)
    else (err, a, w) in
  let '(err, a, w) :=
    if err =? 0 then
      let '(err, a, w) := parse_opt ARGP_KEY_SUCCESS EmptyString (mkState a words argc) w in
      (if err =? ARGP_ERR_UNKNOWN then 0 else err, a, w)
    else
      let '(_, a, w) := parse_opt ARGP_KEY_ERROR EmptyString (mkState a words argc) w in
      (err, a, w) in
  let '(_, a, w) := parse_opt ARGP_KEY_FINI EmptyString (mkState a words argc) w in
  (err, a, w).

(** [main]: the value it returns and the world it leaves.  [arguments] is
    an uninitialised local of [main], so its first contents are arbitrary;
    the result of [argp_parse] is dropped. *)
Definition main (uninitialised : arguments) (words : list string)
  (evs : list argp_event) (w : world) : Z * world :=
  let '(_, a, w) := argp_parse words evs uninitialised w in
  (retcode a, w).

(** *** Reference notions for the driver *)

(** The lower bound in force at a classification: [lower], clamped to a
    non-zero [upper]. *)
Definition effective_lower (a : arguments) : Z :=
  if (upper a <? lower a) && negb (upper a =? 0) then upper a else lower a.

(** A source with [zeros] counted zero-bytes is reported as corrupted. *)
Definition classified_corrupted (a : arguments) (zeros : Z) : bool :=
  effective_lower a <=? zeros.

(** The sources that the calls for the items [evs] classify, in order:
    for each opened file the number of zero bytes counted in it, and
    [struct arguments] as the classification finds it. *)
Fixpoint classified_by (words : list string) (evs : list argp_event)
  (a : arguments) (w : world) : list (Z * arguments) :=
  match evs with
  | [] => []
  | e :: rest =>
      let here :=
        match e with
        | Argument arg _ =>
            match fopen w arg with
            | Opened fp => [(countZB fp (upper a), a)]
            | OpenFailed _ => []
            end
        | _ => []
        end in
      let '(err, a', w') := deliver words e a w in
      if err =? 0 then here ++ classified_by words rest a' w' else here
  end.

(** The sources a whole run classifies: those of its items, or standard
    input when parsing succeeds without a non-option argument. *)
Definition sources_of_run (words : list string) (evs : list argp_event) (w : world)
  : list (Z * arguments) :=
  let '(err, a, w', nargs) := parse_events words evs (mkArguments 0 0 1 0) w 0 in
  classified_by words evs (mkArguments 0 0 1 0) w ++
  (if err =? 0
   then match nargs with
        | O => [(countZB (stdin w') (upper a), a)]
        | S _ => []
        end
   else []).

(** How many sources have a zero byte counted in them, and how many are
    classified as corrupted. *)
Definition count_with_zeros (l : list (Z * arguments)) : Z :=
  Z.of_nat (List.length (filter (fun s => 0 <? fst s) l)).
Definition count_corrupted (l : list (Z * arguments)) : Z :=
  Z.of_nat (List.length (filter (fun s => classified_corrupted (snd s) (fst s)) l)).

(** The outcome of a callback call, by component. *)
Definition err_of (r : Z * arguments * world) : Z := fst (fst r).
Definition args_of (r : Z * arguments * world) : arguments := snd (fst r).
Definition world_of (r : Z * arguments * world) : world := snd r.

(** What the classification of a file prints, by verbosity. *)
Definition file_report (a : arguments) (name : string) (zeros : Z)
  : list (stream * string) :=
  if verbosity a <=? 0 then []
  else if classified_corrupted a zeros
       then [(stderr, msg_file_corrupted name zeros)]
       else if verbosity a =? 1 then []
            else [(stdout, msg_file_counted name zeros)].

(** What the classification of standard input prints, by verbosity. *)
Definition stdin_report (a : arguments) (zeros : Z) : list (stream * string) :=
  if verbosity a <=? 0 then []
  else if classified_corrupted a zeros
       then [(stderr, msg_stdin_corrupted zeros)]
       else if verbosity a =? 1 then []
            else [(stdout, msg_stdin_counted zeros)].

(** The sanity check before a classification: [lower] becomes the
    effective lower bound. *)
Definition clamp_lower (a : arguments) : arguments :=
  set_lower (effective_lower a) a.

(** The update of the number of suspicious files. *)
Definition count_suspicious (zeros : Z) (a : arguments) : arguments :=
  if (0 <? zeros) && (retcode a <? INT_MAX)
  then set_retcode (retcode a + 1) a else a.

Definition print_all (ls : list (stream * string)) (w : world) : world :=
  mkWorld (fopen w) (stdin w) (printed w ++ ls).

(** Stopping at a cap [C > 0]: the count is at most [C] and nothing is
    read past the place where the count reaches [C]. *)
Definition stops_at_cap (S : FILE) (C : Z) : Prop :=
  countZB S C <= C /\
  forall p, cap_point C S = Some p -> (consumed S C <= p)%nat.

(** *** Sample inputs *)

Definition sample_fopen (name : string) : fopen_result :=
  if String.eqb name "clean" then Opened [x61; x62; x63]
  else if String.eqb name "one" then Opened [x61; x00; x62]
  else if String.eqb name "three" then Opened [x00; x61; x00; x00]
  else if String.eqb name "five" then Opened [x00; x00; x00; x00; x00; x61]
  else if String.eqb name "secret" then OpenFailed 13
  else OpenFailed 2.

Definition sample_world : world := mkWorld sample_fopen [] [].

(** *** Notions for the properties of whole runs *)

(** Every field of [struct arguments] holds a value of its C type that a
    run can reach: the counters between 0 and [INT_MAX], the limits within
    [unsigned long]. *)
Definition in_range (a : arguments) : Prop :=
  0 <= verbosity a <= INT_MAX /\
  0 <= upper a <= ULONG_MAX /\
  0 <= lower a <= ULONG_MAX /\
  0 <= retcode a <= INT_MAX.

Definition is_verbose_flag (e : argp_event) : bool :=
  match e with Option_v _ => true | _ => false end.

Definition is_limit_option (e : argp_event) : bool :=
  match e with Option_u _ _ | Option_l _ _ => true | _ => false end.

(** An item that gives [parse_opt] no reason to print at verbosity 0: a
    limit option whose value [strtoul] parses to the end, or a file that
    opens. *)
Definition quiet_item (files : string -> fopen_result) (e : argp_event) : bool :=
  match e with
  | Option_v _ => false
  | Option_u arg _ | Option_l arg _ => negb (nonempty (snd (strtoul arg)))
  | Argument arg _ =>
      match files arg with
      | Opened _ => true
      | OpenFailed _ => false
      end
  end.

(** The cap [countZB] works with: [ULONG_MAX] stands in for 0. *)
Definition cap_of (upper : Z) : Z := if upper =? 0 then ULONG_MAX else upper.

(** * Properties *)

(** ** Characters and the counter *)

Lemma byte_val_range (b : byte) : 0 <= byte_val b < 256.
Proof.
  unfold byte_val. pose proof (Byte.to_N_bounded b) as H. lia.
Qed.

Lemma to_char_small (x : Z) : 0 <= x < 128 -> to_char x = x.
Proof.
  intros H. unfold to_char. rewrite Z.mod_small by lia. lia.
Qed.

Lemma to_char_large (x : Z) : 128 <= x < 256 -> to_char x = x - 256.
Proof.
  intros H. unfold to_char.
  replace (x + 128) with ((x - 128) + 1 * 256) by lia.
  rewrite Z.mod_add by lia. rewrite Z.mod_small by lia. lia.
Qed.

(** [c == '\0'] holds for the zero byte only. *)
Lemma to_char_zero (b : byte) : (to_char (byte_val b) =? 0) = is_zero_byte b.
Proof.
  unfold is_zero_byte. pose proof (byte_val_range b) as R.
  destruct (Z_lt_ge_dec (byte_val b) 128).
  - rewrite to_char_small by lia. reflexivity.
  - rewrite to_char_large by lia.
    destruct (Z.eqb_spec (byte_val b - 256) 0), (Z.eqb_spec (byte_val b) 0); lia || reflexivity.
Qed.

(** [c != EOF] fails for the byte 0xFF, and for no other. *)
Lemma is_eof_byte_iff (b : byte) : is_eof_byte b = true <-> byte_val b = 255.
Proof.
  unfold is_eof_byte, EOF. pose proof (byte_val_range b) as R.
  rewrite Z.eqb_eq.
  destruct (Z_lt_ge_dec (byte_val b) 128).
  - rewrite to_char_small by lia. lia.
  - rewrite to_char_large by lia. lia.
Qed.

Lemma to_ulong_small (x : Z) : 0 <= x <= ULONG_MAX -> to_ulong x = x.
Proof.
  intros H. unfold to_ulong. apply Z.mod_small. lia.
Qed.

(** The loop of [countZB] in terms of [getc]: one test of the [while]
    condition and, when it holds, one run of the body. *)
Lemma countZB_loop_getc (upper zeros : Z) (fp : FILE) :
  countZB_loop upper zeros fp =
  let '(i, rest) := getc fp in
  let c := to_char i in
  if negb (c =? EOF) && (zeros <? upper) && (zeros <? ULONG_MAX)
  then countZB_loop upper (if c =? 0 then to_ulong (zeros + 1) else zeros) rest
  else (zeros, rest).
Proof.
  destruct fp as [|b rest]; reflexivity.
Qed.

Lemma countZB_loop_cons (upper zeros : Z) (b : byte) (rest : FILE) :
  countZB_loop upper zeros (b :: rest) =
  if negb (is_eof_byte b) && (zeros <? upper) && (zeros <? ULONG_MAX)
  then countZB_loop upper (if is_zero_byte b then to_ulong (zeros + 1) else zeros) rest
  else (zeros, rest).
Proof.
  cbn [countZB_loop]. rewrite to_char_zero. reflexivity.
Qed.

(** Once the count is at the cap (or at [ULONG_MAX]) the loop test still
    calls [getc] once, and then leaves. *)
Lemma countZB_loop_halted (upper zeros : Z) (fp : FILE) :
  upper <= zeros \/ ULONG_MAX <= zeros ->
  countZB_loop upper zeros fp = (zeros, tl fp).
Proof.
  intros H. destruct fp as [|b rest]; [reflexivity|].
  rewrite countZB_loop_cons.
  destruct (negb (is_eof_byte b)); cbn [andb tl]; [|reflexivity].
  destruct (Z.ltb_spec zeros upper), (Z.ltb_spec zeros ULONG_MAX);
    cbn [andb]; reflexivity || lia.
Qed.

(** The counter never decreases, never passes the cap nor [ULONG_MAX], and
    never exceeds the zero bytes available. *)
Lemma countZB_loop_bounds (upper : Z) (fp : FILE) : forall zeros,
  0 <= zeros ->
  let z := fst (countZB_loop upper zeros fp) in
  zeros <= z /\ z <= zeros + zero_bytes fp /\
  (z = zeros \/ (z <= upper /\ z <= ULONG_MAX)).
Proof.
  induction fp as [|b rest IH]; intros zeros Hz; cbn zeta.
  - cbn. lia.
  - rewrite countZB_loop_cons. cbn [zero_bytes].
    assert (Hzb : 0 <= zero_bytes rest).
    { clear. induction rest as [|x r IHr]; cbn [zero_bytes]; [lia|].
      destruct (is_zero_byte x); lia. }
    destruct (negb (is_eof_byte b)); cbn [andb fst];
      [|destruct (is_zero_byte b); lia].
    destruct (Z.ltb_spec zeros upper); cbn [andb fst];
      [|destruct (is_zero_byte b); lia].
    destruct (Z.ltb_spec zeros ULONG_MAX); cbn [andb fst];
      [|destruct (is_zero_byte b); lia].
    destruct (is_zero_byte b).
    + rewrite to_ulong_small by lia.
      specialize (IH (zeros + 1) ltac:(lia)). cbn zeta in IH. lia.
    + specialize (IH zeros Hz). cbn zeta in IH. lia.
Qed.

(** What the loop leaves of the stream is a suffix of it. *)
Lemma countZB_loop_suffix (upper : Z) (fp : FILE) : forall zeros,
  exists pre, fp = pre ++ snd (countZB_loop upper zeros fp).
Proof.
  induction fp as [|b rest IH]; intros zeros.
  - exists []. reflexivity.
  - rewrite countZB_loop_cons.
    destruct (negb (is_eof_byte b) && (zeros <? upper) && (zeros <? ULONG_MAX)).
    + destruct (IH (if is_zero_byte b then to_ulong (zeros + 1) else zeros)) as [pre Hpre].
      exists (b :: pre). cbn [app]. f_equal. exact Hpre.
    + exists [b]. reflexivity.
Qed.

Lemma countZB_loop_length (upper zeros : Z) (fp : FILE) :
  (List.length (snd (countZB_loop upper zeros fp)) <= List.length fp)%nat.
Proof.
  destruct (countZB_loop_suffix upper fp zeros) as [pre H].
  rewrite H at 2. rewrite length_app. lia.
Qed.

(** Reading goes at most one byte beyond the place where the count reaches
    the cap. *)
Lemma countZB_loop_cap_point (upper : Z) (fp : FILE) : forall zeros p,
  0 <= zeros < upper ->
  cap_point (upper - zeros) fp = Some p ->
  (List.length fp - List.length (snd (countZB_loop upper zeros fp)) <= S p)%nat.
Proof.
  induction fp as [|b rest IH]; intros zeros p Hz Hp.
  - cbn. lia.
  - rewrite countZB_loop_cons. cbn [cap_point] in Hp.
    pose proof (countZB_loop_length upper zeros rest) as Hlen0.
    destruct (negb (is_eof_byte b) && (zeros <? upper) && (zeros <? ULONG_MAX)) eqn:Hgo;
      cbn [snd List.length]; [|lia].
    apply andb_prop in Hgo as [Hgo Hmax]. apply Z.ltb_lt in Hmax.
    destruct (is_zero_byte b).
    + rewrite to_ulong_small by lia.
      pose proof (countZB_loop_length upper (zeros + 1) rest) as Hlen.
      destruct (Z.leb_spec (upper - zeros) 1).
      * injection Hp as <-.
        rewrite countZB_loop_halted by lia. cbn [snd].
        destruct rest; cbn [tl List.length]; lia.
      * destruct (cap_point (upper - zeros - 1) rest) as [q|] eqn:Hq;
          cbn [option_map] in Hp; [|discriminate].
        injection Hp as <-.
        replace (upper - zeros - 1) with (upper - (zeros + 1)) in Hq by lia.
        specialize (IH (zeros + 1) q ltac:(lia) Hq). lia.
    + destruct (cap_point (upper - zeros) rest) as [q|] eqn:Hq;
        cbn [option_map] in Hp; [|discriminate].
      injection Hp as <-.
      specialize (IH zeros q Hz Hq). lia.
Qed.

Lemma countZB_run_capped (S : FILE) (C : Z) :
  0 < C -> countZB_run S C = countZB_loop C 0 S.
Proof.
  intros H. unfold countZB_run.
  destruct (Z.eqb_spec C 0); [lia | reflexivity].
Qed.

Lemma countZB_run_unlimited (S : FILE) :
  countZB_run S 0 = countZB_loop ULONG_MAX 0 S.
Proof. reflexivity. Qed.

(** The stream left behind is the input without the bytes consumed. *)
Lemma countZB_run_rest (S : FILE) (C : Z) :
  snd (countZB_run S C) = skipn (consumed S C) S.
Proof.
  unfold consumed, countZB_run.
  set (u := if C =? 0 then ULONG_MAX else C).
  destruct (countZB_loop_suffix u S 0) as [pre H].
  set (rest := snd (countZB_loop u 0 S)) in *.
  clearbody rest. subst S. rewrite length_app.
  replace (List.length pre + List.length rest - List.length rest)%nat
    with (List.length pre) by lia.
  clear. induction pre as [|x pre IH]; [reflexivity | exact IH].
Qed.

(** An empty stream gives the count 0, whatever the cap. *)
Lemma countZB_empty (C : Z) : countZB [] C = 0.
Proof. reflexivity. Qed.

Lemma countZB_nonneg (S : FILE) (C : Z) : 0 <= countZB S C.
Proof.
  unfold countZB, countZB_run.
  pose proof (countZB_loop_bounds (if C =? 0 then ULONG_MAX else C) S 0 ltac:(lia)) as H.
  cbn zeta in H. lia.
Qed.

(** The count never exceeds the number of zero bytes in the stream. *)
Lemma countZB_le_zero_bytes (S : FILE) (C : Z) : countZB S C <= zero_bytes S.
Proof.
  unfold countZB, countZB_run.
  pose proof (countZB_loop_bounds (if C =? 0 then ULONG_MAX else C) S 0 ltac:(lia)) as H.
  cbn zeta in H. lia.
Qed.

Lemma countZB_no_zero_bytes (S : FILE) (C : Z) : zero_bytes S = 0 -> countZB S C = 0.
Proof.
  intros H. pose proof (countZB_nonneg S C). pose proof (countZB_le_zero_bytes S C). lia.
Qed.

Lemma zero_bytes_nonneg (s : list byte) : 0 <= zero_bytes s.
Proof.
  induction s as [|x r IHr]; cbn [zero_bytes]; [lia|].
  destruct (is_zero_byte x); lia.
Qed.

(** Over bytes other than 0xFF, and below [ULONG_MAX], the unlimited loop
    counts every zero byte and goes on with what follows. *)
Lemma countZB_loop_app (pre rest : FILE) : forall zeros,
  0 <= zeros ->
  forallb (fun b => negb (is_eof_byte b)) pre = true ->
  zeros + zero_bytes pre < ULONG_MAX ->
  countZB_loop ULONG_MAX zeros (pre ++ rest) =
  countZB_loop ULONG_MAX (zeros + zero_bytes pre) rest.
Proof.
  induction pre as [|b pre IH]; intros zeros Hz Hff Hlt.
  - cbn [app zero_bytes]. rewrite Z.add_0_r. reflexivity.
  - cbn [app]. rewrite countZB_loop_cons. cbn [forallb zero_bytes] in *.
    apply andb_prop in Hff as [Hb Hff]. rewrite Hb.
    pose proof (zero_bytes_nonneg pre) as Hzb.
    assert (Hlt' : zeros < ULONG_MAX) by (destruct (is_zero_byte b); lia).
    apply Z.ltb_lt in Hlt' as Hlt''. rewrite Hlt''. cbn [andb].
    destruct (is_zero_byte b).
    + rewrite to_ulong_small by lia. rewrite IH by (trivial; lia). f_equal. lia.
    + rewrite IH by (trivial; lia). f_equal.
Qed.

(** Without a byte 0xFF and with fewer than [ULONG_MAX] zero bytes, the
    unlimited count is exact and the whole stream is read. *)
Lemma countZB_unlimited_exact (S : FILE) :
  forallb (fun b => negb (is_eof_byte b)) S = true ->
  zero_bytes S < ULONG_MAX ->
  countZB_run S 0 = (zero_bytes S, []).
Proof.
  intros Hff Hlt. rewrite countZB_run_unlimited.
  rewrite <- (app_nil_r S) at 1.
  rewrite countZB_loop_app by (trivial; lia). reflexivity.
Qed.

(** Without a byte 0xFF the capped count is the number of zero bytes, or
    the cap when there are more. *)
Lemma countZB_loop_capped_exact (C : Z) (fp : FILE) : forall zeros,
  0 <= zeros <= C -> C <= ULONG_MAX ->
  forallb (fun b => negb (is_eof_byte b)) fp = true ->
  fst (countZB_loop C zeros fp) = Z.min C (zeros + zero_bytes fp).
Proof.
  induction fp as [|b rest IH]; intros zeros Hz HC Hff.
  - cbn [countZB_loop fst zero_bytes]. lia.
  - pose proof (zero_bytes_nonneg (b :: rest)) as Hzb.
    destruct (Z.eq_dec zeros C) as [->|Hne].
    + rewrite countZB_loop_halted by lia. cbn [fst]. lia.
    + rewrite countZB_loop_cons. cbn [forallb zero_bytes] in *.
      apply andb_prop in Hff as [Hb Hff]. rewrite Hb.
      assert (H1 : (zeros <? C) = true) by (apply Z.ltb_lt; lia).
      assert (H2 : (zeros <? ULONG_MAX) = true) by (apply Z.ltb_lt; lia).
      rewrite H1, H2. cbn [andb].
      destruct (is_zero_byte b).
      * rewrite to_ulong_small by lia. rewrite IH by (trivial; lia). lia.
      * rewrite IH by (trivial; lia). lia.
Qed.

Lemma countZB_capped_exact (S : FILE) (C : Z) :
  0 < C <= ULONG_MAX ->
  forallb (fun b => negb (is_eof_byte b)) S = true ->
  countZB S C = Z.min C (zero_bytes S).
Proof.
  intros HC Hff. unfold countZB. rewrite countZB_run_capped by lia.
  rewrite countZB_loop_capped_exact by (trivial; lia). reflexivity.
Qed.

(** Where [char] is signed the [while] loop leaves within one test per
    byte and one more, with the result of [countZB_loop]. *)
Lemma countZB_while_signed (fp : FILE) : forall upper zeros,
  countZB_while to_char (S (List.length fp)) upper zeros fp =
  Some (countZB_loop upper zeros fp).
Proof.
  induction fp as [|b rest IH]; intros upper zeros.
  - reflexivity.
  - cbn [List.length]. rewrite countZB_loop_getc.
    change (countZB_while to_char (S (S (List.length rest))) upper zeros (b :: rest))
      with (let '(i, rest') := getc (b :: rest) in
            let c := to_char i in
            if negb (c =? EOF) && (zeros <? upper) && (zeros <? ULONG_MAX)
            then countZB_while to_char (S (List.length rest)) upper
                   (if c =? 0 then to_ulong (zeros + 1) else zeros) rest'
            else Some (zeros, rest')).
    cbn [getc]. cbv zeta.
    destruct (negb (to_char (byte_val b) =? EOF) && (zeros <? upper) && (zeros <? ULONG_MAX));
      [apply IH | reflexivity].
Qed.

(** Where [char] is unsigned, [c != EOF] always holds: at the end of the
    stream the loop goes on for ever unless the count is at its bound. *)
Lemma countZB_while_unsigned_at_eof (fuel : nat) (upper zeros : Z) :
  zeros < upper -> zeros < ULONG_MAX ->
  countZB_while to_uchar fuel upper zeros [] = None.
Proof.
  intros Hu Hm. apply Z.ltb_lt in Hu, Hm.
  induction fuel as [|fuel IH]; [reflexivity|].
  cbn [countZB_while getc]. cbv zeta.
  change (to_uchar EOF) with 255. change (255 =? EOF) with false.
  change (255 =? 0) with false. cbn [negb andb]. rewrite Hu, Hm. exact IH.
Qed.

(** ** The byte counter: claims C3 and C4 *)

(** C3 (the code departs from it).  The claim: for every stream,
    [countZB] with cap 0 reads to the end of the stream and returns exactly
    its number of zero bytes.  But [char c = getc(fp)] makes a byte 0xFF
    equal to [EOF]: the count ends at the first such byte, and no zero byte
    after it is counted or read. *)
Theorem countZB_unlimited_stops_at_0xff (pre post : FILE) :
  forallb (fun b => negb (is_eof_byte b)) pre = true ->
  zero_bytes pre < ULONG_MAX ->
  countZB_run (pre ++ xff :: post) 0 = (zero_bytes pre, post).
Proof.
  intros Hff Hlt. rewrite countZB_run_unlimited.
  rewrite countZB_loop_app by (trivial; lia).
  rewrite countZB_loop_cons. reflexivity.
Qed.

Lemma countZB_unlimited_stops_at_0xff_witness :
  zero_bytes [xff; x00] = 1 /\
  countZB_run ([] ++ [xff; x00]) 0 = (0, [x00]).
Proof.
  split; [reflexivity|].
  refine (countZB_unlimited_stops_at_0xff [] [x00] eq_refl _).
  cbn. unfold ULONG_MAX. lia.
Defined.

(** C4, as stated, fails: with cap 1 on the stream 0x00 0x41 the count
    reaches the cap after the first byte, yet the second byte is taken from
    the stream as well. *)
Lemma countZB_reads_past_cap :
  0 < 1 /\ cap_point 1 [x00; x41] = Some 1%nat /\
  consumed [x00; x41] 1 = 2%nat /\ ~ stops_at_cap [x00; x41] 1.
Proof.
  split; [lia|]. split; [reflexivity|]. split; [reflexivity|].
  intros [_ H]. specialize (H 1%nat eq_refl).
  change (consumed [x00; x41] 1) with 2%nat in H. lia.
Qed.

(** C4, amended.  For every stream [S] and cap [C > 0], [countZB] returns a
    count of at most [C]; once the count has reached [C] at most one more
    byte is taken from the stream (the loop test calls [getc] before it
    compares the count with the cap), and the bytes after the consumed ones
    are left in the stream untouched. *)
Theorem countZB_capped (S : FILE) (C : Z) :
  0 < C ->
  countZB S C <= C /\
  (forall p, cap_point C S = Some p -> (consumed S C <= p + 1)%nat) /\
  snd (countZB_run S C) = skipn (consumed S C) S.
Proof.
  intros HC. split; [|split].
  - unfold countZB. rewrite countZB_run_capped by exact HC.
    pose proof (countZB_loop_bounds C S 0 ltac:(lia)) as H. cbn zeta in H. lia.
  - intros p Hp. unfold consumed. rewrite countZB_run_capped by exact HC.
    pose proof (countZB_loop_cap_point C S 0 p ltac:(lia)) as H.
    rewrite Z.sub_0_r in H. specialize (H Hp). lia.
  - apply countZB_run_rest.
Qed.

Lemma countZB_capped_witness :
  0 < 2 /\
  countZB [x00; x61; x00; x62; x63; x00] 2 <= 2 /\
  (consumed [x00; x61; x00; x62; x63; x00] 2 <= 3 + 1)%nat /\
  snd (countZB_run [x00; x61; x00; x62; x63; x00] 2) =
    skipn (consumed [x00; x61; x00; x62; x63; x00] 2) [x00; x61; x00; x62; x63; x00].
Proof.
  assert (H2 : 0 < 2) by lia.
  destruct (countZB_capped [x00; x61; x00; x62; x63; x00] 2 H2) as [Hle [Hcap Hrest]].
  split; [exact H2|]. split; [exact Hle|]. split; [|exact Hrest].
  exact (Hcap 3%nat eq_refl).
Defined.

(** ** The callback, case by case *)

(** Decides the tests of the [switch] for a known key. *)
Ltac switch_on_key :=
  unfold parse_opt;
  repeat match goal with
  | |- context [Z.eqb ?x ?y] =>
      let b := eval vm_compute in (Z.eqb x y) in
      match b with
      | true => change (Z.eqb x y) with true
      | false => change (Z.eqb x y) with false
      end
  end;
  cbv iota.

Lemma parse_opt_INIT (arg : string) (st : argp_state) (w : world) :
  parse_opt ARGP_KEY_INIT arg st w = (0, mkArguments 0 0 1 0, w).
Proof. reflexivity. Qed.

Lemma parse_opt_v (arg : string) (st : argp_state) (w : world) :
  parse_opt key_v arg st w =
  (0, if verbosity (input st) <? INT_MAX
      then set_verbosity (verbosity (input st) + 1) (input st) else input st, w).
Proof. reflexivity. Qed.

Lemma parse_opt_u (arg : string) (st : argp_state) (w : world) :
  parse_opt key_u arg st w =
  let a := set_upper (fst (strtoul arg)) (input st) in
  if nonempty (snd (strtoul arg))
  then (EINVAL, a,
        fprintf stderr (msg_not_integer (nth (next st - 1) (argv st) EmptyString)) w)
  else (0, a, w).
Proof.
  switch_on_key. destruct (strtoul arg) as [v tail]. reflexivity.
Qed.

Lemma parse_opt_l (arg : string) (st : argp_state) (w : world) :
  parse_opt key_l arg st w =
  let a := set_lower (fst (strtoul arg)) (input st) in
  if nonempty (snd (strtoul arg))
  then (EINVAL, a,
        fprintf stderr (msg_not_integer (nth (next st - 1) (argv st) EmptyString)) w)
  else (0, a, w).
Proof.
  switch_on_key. destruct (strtoul arg) as [v tail]. reflexivity.
Qed.

Lemma parse_opt_ERROR (arg : string) (st : argp_state) (w : world) :
  parse_opt ARGP_KEY_ERROR arg st w = (0, input st, fprintf stderr msg_terminated w).
Proof. reflexivity. Qed.

Lemma parse_opt_END (arg : string) (st : argp_state) (w : world) :
  parse_opt ARGP_KEY_END arg st w = (ARGP_ERR_UNKNOWN, input st, w).
Proof. reflexivity. Qed.

Lemma parse_opt_SUCCESS (arg : string) (st : argp_state) (w : world) :
  parse_opt ARGP_KEY_SUCCESS arg st w = (ARGP_ERR_UNKNOWN, input st, w).
Proof. reflexivity. Qed.

Lemma parse_opt_FINI (arg : string) (st : argp_state) (w : world) :
  parse_opt ARGP_KEY_FINI arg st w = (ARGP_ERR_UNKNOWN, input st, w).
Proof. reflexivity. Qed.

Lemma parse_opt_open_failed (arg : string) (st : argp_state) (w : world) (errno : Z) :
  fopen w arg = OpenFailed errno ->
  parse_opt ARGP_KEY_ARG arg st w =
  (0, input st, fprintf stderr (msg_open_failed arg errno) w).
Proof.
  intros H. switch_on_key. rewrite H. reflexivity.
Qed.

(** Decides the tests of the classification step, after the clamp and the
    update of [retcode] have been settled. *)
Ltac settle_report :=
  repeat match goal with
  | |- context [Z.eqb ?x ?y] => destruct (Z.eqb_spec x y); try lia
  | |- context [Z.leb ?x ?y] => destruct (Z.leb_spec x y); try lia
  | |- context [Z.ltb ?x ?y] => destruct (Z.ltb_spec x y); try lia
  end;
  cbn [andb negb app]; try rewrite app_nil_r; try reflexivity.

(** The classification of an opened file: clamp, count, report. *)
Lemma parse_opt_file (arg : string) (st : argp_state) (w : world) (fp : FILE) :
  fopen w arg = Opened fp ->
  parse_opt ARGP_KEY_ARG arg st w =
  let zeros := countZB fp (upper (input st)) in
  (0, count_suspicious zeros (clamp_lower (input st)),
   print_all (file_report (input st) arg zeros) w).
Proof.
  intros H. switch_on_key. rewrite H. cbv zeta.
  pose proof (countZB_nonneg fp (upper (input st))) as Hz.
  set (zeros := countZB fp (upper (input st))) in *. clearbody zeros.
  destruct st as [[v u l r] words n], w as [fo si pr].
  unfold count_suspicious, clamp_lower, file_report, classified_corrupted,
    effective_lower, print_all, fprintf, set_lower, set_retcode.
  cbn [input verbosity upper lower retcode fopen stdin printed].
  destruct ((u <? l) && negb (u =? 0));
    cbn [input verbosity upper lower retcode fopen stdin printed].
  - destruct (Z.eqb_spec zeros 0), (Z.ltb_spec 0 zeros); try lia;
      destruct (Z.ltb_spec r INT_MAX); cbn [andb negb verbosity lower];
      settle_report.
  - destruct (Z.eqb_spec zeros 0), (Z.ltb_spec 0 zeros); try lia;
      destruct (Z.ltb_spec r INT_MAX); cbn [andb negb verbosity lower];
      settle_report.
Qed.

(** The classification of standard input: clamp, count, report. *)
Lemma parse_opt_stdin (arg : string) (st : argp_state) (w : world) :
  parse_opt ARGP_KEY_NO_ARGS arg st w =
  let zeros := countZB (stdin w) (upper (input st)) in
  (0, count_suspicious zeros (clamp_lower (input st)),
   print_all (stdin_report (input st) zeros)
     (set_stdin (snd (countZB_run (stdin w) (upper (input st)))) w)).
Proof.
  switch_on_key. cbv zeta.
  pose proof (countZB_nonneg (stdin w) (upper (input st))) as Hz.
  unfold countZB in *.
  destruct (countZB_run (stdin w) (upper (input st))) as [zeros rest].
  cbn [fst snd] in *.
  destruct st as [[v u l r] words n], w as [fo si pr].
  unfold count_suspicious, clamp_lower, stdin_report, classified_corrupted,
    effective_lower, print_all, fprintf, set_stdin, set_lower, set_retcode.
  cbn [input verbosity upper lower retcode fopen stdin printed].
  destruct ((u <? l) && negb (u =? 0));
    cbn [input verbosity upper lower retcode fopen stdin printed].
  - destruct (Z.eqb_spec zeros 0), (Z.ltb_spec 0 zeros); try lia;
      destruct (Z.ltb_spec r INT_MAX); cbn [andb negb verbosity lower];
      settle_report.
  - destruct (Z.eqb_spec zeros 0), (Z.ltb_spec 0 zeros); try lia;
      destruct (Z.ltb_spec r INT_MAX); cbn [andb negb verbosity lower];
      settle_report.
Qed.

Lemma effective_lower_clamped (a : arguments) :
  effective_lower a <= upper a \/ upper a = 0.
Proof.
  unfold effective_lower.
  destruct (Z.ltb_spec (upper a) (lower a)), (Z.eqb_spec (upper a) 0);
    cbn [andb negb]; lia.
Qed.

Lemma count_suspicious_fields (zeros : Z) (a : arguments) :
  verbosity (count_suspicious zeros a) = verbosity a /\
  upper (count_suspicious zeros a) = upper a /\
  lower (count_suspicious zeros a) = lower a.
Proof.
  unfold count_suspicious.
  destruct ((0 <? zeros) && (retcode a <? INT_MAX)); repeat split.
Qed.

Lemma count_suspicious_retcode (zeros : Z) (a : arguments) :
  retcode (count_suspicious zeros (clamp_lower a)) =
  if (0 <? zeros) && (retcode a <? INT_MAX) then retcode a + 1 else retcode a.
Proof.
  unfold count_suspicious. cbn [clamp_lower set_lower retcode].
  destruct ((0 <? zeros) && (retcode a <? INT_MAX)); reflexivity.
Qed.

(** Clamping twice is clamping once. *)
Lemma effective_lower_idem (zeros : Z) (a : arguments) :
  effective_lower (count_suspicious zeros (clamp_lower a)) = effective_lower a.
Proof.
  destruct (count_suspicious_fields zeros (clamp_lower a)) as [_ [Hu Hl]].
  unfold effective_lower at 1. rewrite Hu, Hl.
  cbn [clamp_lower set_lower upper lower]. unfold effective_lower.
  destruct (Z.ltb_spec (upper a) (lower a)), (Z.eqb_spec (upper a) 0);
    cbn [andb negb];
    repeat match goal with
    | |- context [Z.ltb ?x ?y] => destruct (Z.ltb_spec x y); try lia
    end; cbn [andb negb]; reflexivity.
Qed.

(** ** The driver, step by step *)

Lemma parse_events_ok (words : list string) (e : argp_event) (rest : list argp_event)
  (a a' : arguments) (w w' : world) (nargs : nat) :
  deliver words e a w = (0, a', w') ->
  parse_events words (e :: rest) a w nargs =
  parse_events words rest a' w' (if is_argument e then S nargs else nargs).
Proof.
  intros H. cbn [parse_events]. rewrite H. reflexivity.
Qed.

Lemma parse_events_stop (words : list string) (e : argp_event) (rest : list argp_event)
  (a a' : arguments) (w w' : world) (nargs : nat) (err : Z) :
  deliver words e a w = (err, a', w') -> err <> 0 ->
  parse_events words (e :: rest) a w nargs = (err, a', w', nargs).
Proof.
  intros H Herr. cbn [parse_events]. rewrite H.
  destruct (Z.eqb_spec err 0); [contradiction | reflexivity].
Qed.

(** All items handled, one of them a non-option argument. *)
Lemma argp_parse_with_args (words : list string) (evs : list argp_event)
  (u a : arguments) (w w' : world) (n : nat) :
  parse_events words evs (mkArguments 0 0 1 0) w 0 = (0, a, w', S n) ->
  argp_parse words evs u w = (0, a, w').
Proof.
  intros H. unfold argp_parse. rewrite parse_opt_INIT, H. reflexivity.
Qed.

(** All items handled and no non-option argument among them: standard
    input is classified. *)
Lemma argp_parse_no_args (words : list string) (evs : list argp_event)
  (u a : arguments) (w w' : world) :
  parse_events words evs (mkArguments 0 0 1 0) w 0 = (0, a, w', O) ->
  argp_parse words evs u w =
  parse_opt ARGP_KEY_NO_ARGS EmptyString (mkState a words (List.length words)) w'.
Proof.
  intros H. unfold argp_parse. rewrite parse_opt_INIT, H.
  change (0 =? 0) with true. cbv iota.
  rewrite parse_opt_stdin. reflexivity.
Qed.

(** The callback failed on an item: [ARGP_KEY_ERROR] follows and the error
    is the result of [argp_parse]. *)
Lemma argp_parse_failed (words : list string) (evs : list argp_event)
  (u a : arguments) (w w' : world) (n : nat) (err : Z) :
  parse_events words evs (mkArguments 0 0 1 0) w 0 = (err, a, w', n) ->
  err <> 0 ->
  argp_parse words evs u w = (err, a, fprintf stderr msg_terminated w').
Proof.
  intros H Herr. apply Z.eqb_neq in Herr.
  unfold argp_parse. rewrite parse_opt_INIT, H.
  rewrite Herr. cbv beta iota. rewrite Herr. reflexivity.
Qed.

Lemma deliver_v (words : list string) (n : nat) (a : arguments) (w : world) :
  deliver words (Option_v n) a w =
  (0, if verbosity a <? INT_MAX then set_verbosity (verbosity a + 1) a else a, w).
Proof. reflexivity. Qed.

Lemma deliver_file (words : list string) (arg : string) (n : nat)
  (a : arguments) (w : world) (fp : FILE) :
  fopen w arg = Opened fp ->
  deliver words (Argument arg n) a w =
  (0, count_suspicious (countZB fp (upper a)) (clamp_lower a),
   print_all (file_report a arg (countZB fp (upper a))) w).
Proof.
  intros H. unfold deliver. cbn [event_key event_arg event_next].
  rewrite (parse_opt_file _ _ _ fp H). reflexivity.
Qed.

Lemma deliver_open_failed (words : list string) (arg : string) (n : nat)
  (a : arguments) (w : world) (errno : Z) :
  fopen w arg = OpenFailed errno ->
  deliver words (Argument arg n) a w =
  (0, a, fprintf stderr (msg_open_failed arg errno) w).
Proof.
  intros H. unfold deliver. cbn [event_key event_arg event_next].
  rewrite (parse_opt_open_failed _ _ _ errno H). reflexivity.
Qed.

Lemma deliver_u (words : list string) (arg : string) (n : nat)
  (a : arguments) (w : world) :
  deliver words (Option_u arg n) a w =
  if nonempty (snd (strtoul arg))
  then (EINVAL, set_upper (fst (strtoul arg)) a,
        fprintf stderr (msg_not_integer (nth (n - 1) words EmptyString)) w)
  else (0, set_upper (fst (strtoul arg)) a, w).
Proof.
  unfold deliver. cbn [event_key event_arg event_next].
  rewrite parse_opt_u. reflexivity.
Qed.

Lemma deliver_l (words : list string) (arg : string) (n : nat)
  (a : arguments) (w : world) :
  deliver words (Option_l arg n) a w =
  if nonempty (snd (strtoul arg))
  then (EINVAL, set_lower (fst (strtoul arg)) a,
        fprintf stderr (msg_not_integer (nth (n - 1) words EmptyString)) w)
  else (0, set_lower (fst (strtoul arg)) a, w).
Proof.
  unfold deliver. cbn [event_key event_arg event_next].
  rewrite parse_opt_l. reflexivity.
Qed.

Lemma parse_events_nil (words : list string) (a : arguments) (w : world) (nargs : nat) :
  parse_events words [] a w nargs = (0, a, w, nargs).
Proof. reflexivity. Qed.

(** Two verbosity flags at the start of the command line. *)
Lemma parse_events_vv (words : list string) (n1 n2 : nat) (rest : list argp_event)
  (w : world) (nargs : nat) :
  parse_events words (Option_v n1 :: Option_v n2 :: rest) (mkArguments 0 0 1 0) w nargs =
  parse_events words rest (mkArguments 2 0 1 0) w nargs.
Proof. reflexivity. Qed.

(** ** The classification step: claims C2, C5, C9, C10 *)

(** C2.  In the classification of a source, be it an opened file or
    standard input, [retcode] (the flagged count) goes up by one exactly
    when the counted number of zero bytes is greater than 0 and [retcode] is
    below [INT_MAX], and stays as it is otherwise; the value of [lower] has
    no part in it. *)
Theorem retcode_counts_nonzero_sources (arg : string) (st : argp_state) (w : world) :
  let a := input st in
  let bump (zeros : Z) :=
    if (0 <? zeros) && (retcode a <? INT_MAX) then retcode a + 1 else retcode a in
  (forall fp, fopen w arg = Opened fp ->
     retcode (args_of (parse_opt ARGP_KEY_ARG arg st w)) = bump (countZB fp (upper a)) /\
     forall l,
       retcode (args_of (parse_opt ARGP_KEY_ARG arg
                           (mkState (set_lower l a) (argv st) (next st)) w)) =
       retcode (args_of (parse_opt ARGP_KEY_ARG arg st w))) /\
  retcode (args_of (parse_opt ARGP_KEY_NO_ARGS arg st w)) =
    bump (countZB (stdin w) (upper a)) /\
  (forall l,
     retcode (args_of (parse_opt ARGP_KEY_NO_ARGS arg
                         (mkState (set_lower l a) (argv st) (next st)) w)) =
     retcode (args_of (parse_opt ARGP_KEY_NO_ARGS arg st w))).
Proof.
  cbv zeta. split; [|split].
  - intros fp Hfp. split; [|intros l];
      rewrite !(parse_opt_file _ _ _ fp Hfp); cbv zeta;
      unfold args_of; cbn [fst snd input]; rewrite !count_suspicious_retcode;
      reflexivity.
  - rewrite parse_opt_stdin. cbv zeta. unfold args_of. cbn [fst snd].
    apply count_suspicious_retcode.
  - intros l. rewrite !parse_opt_stdin. cbv zeta. unfold args_of.
    cbn [fst snd input]. rewrite !count_suspicious_retcode. reflexivity.
Qed.

Lemma retcode_counts_nonzero_sources_witness :
  retcode (args_of (parse_opt ARGP_KEY_ARG "one"
                      (mkState (mkArguments 0 0 3 4) ["zcount"; "one"]%string 2)
                      sample_world)) = 5 /\
  retcode (args_of (parse_opt ARGP_KEY_ARG "clean"
                      (mkState (mkArguments 0 0 0 4) ["zcount"; "clean"]%string 2)
                      sample_world)) = 4.
Proof.
  split.
  - exact (proj1 (proj1 (retcode_counts_nonzero_sources "one"
             (mkState (mkArguments 0 0 3 4) ["zcount"; "one"]%string 2) sample_world)
             [x61; x00; x62] eq_refl)).
  - exact (proj1 (proj1 (retcode_counts_nonzero_sources "clean"
             (mkState (mkArguments 0 0 0 4) ["zcount"; "clean"]%string 2) sample_world)
             [x61; x62; x63] eq_refl)).
Defined.

(** C5.  At the classification of each source (an opened file or standard
    input) [lower] is first set to [upper] when [lower > upper] and
    [upper != 0]; the report is made against that value, and afterwards
    [lower <= upper] or [upper = 0] holds.  With [upper = 5] and
    [lower = 10] a file in which 5 zero bytes are counted is classified
    corrupted: [lower] becomes 5, [retcode] goes up (below [INT_MAX]) and
    from verbosity 1 on the "seems corrupted" line goes to the error
    stream. *)
Theorem lower_clamped_at_classification (arg : string) (st : argp_state) (w : world) :
  let a := input st in
  (forall fp, fopen w arg = Opened fp ->
     let r := parse_opt ARGP_KEY_ARG arg st w in
     lower (args_of r) = (if (upper a <? lower a) && negb (upper a =? 0)
                          then upper a else lower a) /\
     upper (args_of r) = upper a /\
     (lower (args_of r) <= upper (args_of r) \/ upper (args_of r) = 0) /\
     printed (world_of r) =
       printed w ++ file_report (args_of r) arg (countZB fp (upper a))) /\
  (let r := parse_opt ARGP_KEY_NO_ARGS arg st w in
   lower (args_of r) = (if (upper a <? lower a) && negb (upper a =? 0)
                        then upper a else lower a) /\
   upper (args_of r) = upper a /\
   (lower (args_of r) <= upper (args_of r) \/ upper (args_of r) = 0) /\
   printed (world_of r) =
     printed w ++ stdin_report (args_of r) (countZB (stdin w) (upper a))) /\
  (forall fp, fopen w arg = Opened fp ->
     upper a = 5 -> lower a = 10 -> countZB fp 5 = 5 ->
     let r := parse_opt ARGP_KEY_ARG arg st w in
     lower (args_of r) = 5 /\
     classified_corrupted a 5 = true /\
     retcode (args_of r) = (if retcode a <? INT_MAX then retcode a + 1 else retcode a) /\
     (1 <= verbosity a ->
      printed (world_of r) = printed w ++ [(stderr, msg_file_corrupted arg 5)])).
Proof.
  cbv zeta.
  assert (Hidem : forall z b zs,
            file_report (count_suspicious z (clamp_lower b)) arg zs =
              file_report b arg zs /\
            stdin_report (count_suspicious z (clamp_lower b)) zs =
              stdin_report b zs).
  { intros z b zs. unfold file_report, stdin_report, classified_corrupted.
    destruct (count_suspicious_fields z (clamp_lower b)) as [Hv _].
    rewrite Hv, effective_lower_idem. split; reflexivity. }
  split; [|split].
  - intros fp Hfp. rewrite (parse_opt_file _ _ _ fp Hfp). cbv zeta.
    unfold args_of, world_of. cbn [fst snd].
    destruct (count_suspicious_fields (countZB fp (upper (input st)))
                (clamp_lower (input st))) as [_ [Hu Hl]].
    rewrite Hu, Hl. cbn [clamp_lower set_lower upper lower print_all printed].
    rewrite (proj1 (Hidem _ _ _)).
    repeat split. apply effective_lower_clamped.
  - rewrite parse_opt_stdin. cbv zeta.
    unfold args_of, world_of. cbn [fst snd].
    destruct (count_suspicious_fields (countZB (stdin w) (upper (input st)))
                (clamp_lower (input st))) as [_ [Hu Hl]].
    rewrite Hu, Hl. cbn [clamp_lower set_lower upper lower print_all printed set_stdin].
    rewrite (proj2 (Hidem _ _ _)).
    repeat split. apply effective_lower_clamped.
  - intros fp Hfp Hu Hl Hz. rewrite (parse_opt_file _ _ _ fp Hfp). cbv zeta.
    unfold args_of, world_of. cbn [fst snd].
    rewrite Hu, Hz.
    destruct (count_suspicious_fields 5 (clamp_lower (input st))) as [_ [_ Hl']].
    rewrite Hl', count_suspicious_retcode.
    unfold file_report, classified_corrupted, effective_lower.
    cbn [clamp_lower set_lower lower print_all printed]. unfold effective_lower.
    rewrite Hu, Hl. cbn [Z.ltb Z.eqb Z.leb Z.compare Pos.compare Pos.compare_cont andb negb].
    repeat split.
    intros Hv. destruct (Z.leb_spec (verbosity (input st)) 0); [lia | reflexivity].
Qed.

Lemma lower_clamped_at_classification_witness :
  let r := parse_opt ARGP_KEY_ARG "five"
             (mkState (mkArguments 1 5 10 0) ["zcount"; "five"]%string 2) sample_world in
  lower (args_of r) = 5 /\
  classified_corrupted (mkArguments 1 5 10 0) 5 = true /\
  retcode (args_of r) = 1 /\
  printed (world_of r) = [(stderr, msg_file_corrupted "five" 5)].
Proof.
  cbv zeta.
  destruct (proj2 (proj2 (lower_clamped_at_classification "five"
              (mkState (mkArguments 1 5 10 0) ["zcount"; "five"]%string 2) sample_world))
              [x00; x00; x00; x00; x00; x61] eq_refl eq_refl eq_refl eq_refl)
    as [Hl [Hc [Hr Hp]]].
  split; [exact Hl|]. split; [exact Hc|]. split; [exact Hr|].
  apply Hp. cbn. lia.
Defined.

(** C9.  When [verbosity >= 2] the classification of a scanned source (an
    opened file or standard input) prints exactly one line: on standard
    output when the counted zero bytes are below the clamped [lower], and
    otherwise on the error stream, in the "seems corrupted" wording.  After
    two [-v] flags and with the defaults ([lower = 1], [upper = 0]), a file
    without zero bytes gives the standard-output line
    "<file>: 0 zero-bytes counted" and a file in which 3 zero bytes are
    counted gives the error-stream line
    "<file>: seems corrupted, 3 zero-bytes counted". *)
Theorem verbose_report_is_one_line (arg : string) (st : argp_state) (w : world) :
  let a := input st in
  let lower' := if (upper a <? lower a) && negb (upper a =? 0) then upper a else lower a in
  (2 <= verbosity a ->
   forall fp, fopen w arg = Opened fp ->
     let zeros := countZB fp (upper a) in
     printed (world_of (parse_opt ARGP_KEY_ARG arg st w)) =
     printed w ++ [if zeros <? lower'
                   then (stdout, msg_file_counted arg zeros)
                   else (stderr, msg_file_corrupted arg zeros)]) /\
  (2 <= verbosity a ->
   let zeros := countZB (stdin w) (upper a) in
   printed (world_of (parse_opt ARGP_KEY_NO_ARGS arg st w)) =
   printed w ++ [if zeros <? lower'
                 then (stdout, msg_stdin_counted zeros)
                 else (stderr, msg_stdin_corrupted zeros)]) /\
  (forall u words n1 n2 n3 fp, fopen w arg = Opened fp -> zero_bytes fp = 0 ->
     main u words [Option_v n1; Option_v n2; Argument arg n3] w =
     (0, fprintf stdout (arg ++ ": 0 zero-bytes counted" ++ nl)%string w)) /\
  (forall u words n1 n2 n3 fp, fopen w arg = Opened fp -> countZB fp 0 = 3 ->
     main u words [Option_v n1; Option_v n2; Argument arg n3] w =
     (1, fprintf stderr (arg ++ ": seems corrupted, 3 zero-bytes counted" ++ nl)%string w)).
Proof.
  cbv zeta.
  assert (Hline : forall zeros (x y : stream * string),
            2 <= verbosity (input st) ->
            (if verbosity (input st) <=? 0 then []
             else if effective_lower (input st) <=? zeros then [y]
                  else if verbosity (input st) =? 1 then [] else [x]) =
            [if zeros <? effective_lower (input st) then x else y]).
  { intros zeros x y Hv.
    destruct (Z.leb_spec (verbosity (input st)) 0); [lia|].
    destruct (Z.eqb_spec (verbosity (input st)) 1); [lia|].
    destruct (Z.leb_spec (effective_lower (input st)) zeros),
             (Z.ltb_spec zeros (effective_lower (input st))); lia || reflexivity. }
  split; [|split; [|split]].
  - intros Hv fp Hfp. rewrite (parse_opt_file _ _ _ fp Hfp). cbv zeta.
    unfold world_of. cbn [snd print_all printed]. f_equal.
    unfold file_report, classified_corrupted. apply Hline, Hv.
  - intros Hv. rewrite parse_opt_stdin. cbv zeta.
    unfold world_of. cbn [snd print_all printed set_stdin]. f_equal.
    unfold stdin_report, classified_corrupted. apply Hline, Hv.
  - intros u words n1 n2 n3 fp Hfp Hz. unfold main.
    erewrite argp_parse_with_args.
    2: { rewrite parse_events_vv.
         erewrite parse_events_ok by (apply (deliver_file _ _ _ _ _ fp); exact Hfp).
         cbn [is_argument upper]. rewrite (countZB_no_zero_bytes _ _ Hz).
         apply parse_events_nil. }
    reflexivity.
  - intros u words n1 n2 n3 fp Hfp Hz. unfold main.
    erewrite argp_parse_with_args.
    2: { rewrite parse_events_vv.
         erewrite parse_events_ok by (apply (deliver_file _ _ _ _ _ fp); exact Hfp).
         cbn [is_argument upper]. rewrite Hz.
         apply parse_events_nil. }
    reflexivity.
Qed.

Lemma verbose_report_is_one_line_witness :
  printed (world_of (parse_opt ARGP_KEY_ARG "one"
                       (mkState (mkArguments 3 0 2 0) ["zcount"; "one"]%string 2)
                       sample_world)) =
    [(stdout, msg_file_counted "one" 1)] /\
  main (mkArguments 9 9 9 9) ["zcount"; "-vv"; "clean"]%string
       [Option_v 2; Option_v 2; Argument "clean" 3] sample_world =
    (0, fprintf stdout ("clean" ++ ": 0 zero-bytes counted" ++ nl)%string sample_world) /\
  main (mkArguments 9 9 9 9) ["zcount"; "-vv"; "three"]%string
       [Option_v 2; Option_v 2; Argument "three" 3] sample_world =
    (1, fprintf stderr ("three" ++ ": seems corrupted, 3 zero-bytes counted" ++ nl)%string
          sample_world).
Proof.
  pose proof (verbose_report_is_one_line "one"
                (mkState (mkArguments 3 0 2 0) ["zcount"; "one"]%string 2) sample_world) as H1.
  pose proof (verbose_report_is_one_line "clean"
                (mkState (mkArguments 0 0 1 0) [] 0) sample_world) as H2.
  pose proof (verbose_report_is_one_line "three"
                (mkState (mkArguments 0 0 1 0) [] 0) sample_world) as H3.
  cbv zeta in H1, H2, H3.
  split; [|split].
  - refine (proj1 H1 _ [x61; x00; x62] eq_refl). cbn. lia.
  - exact (proj1 (proj2 (proj2 H2)) _ _ _ _ _ [x61; x62; x63] eq_refl eq_refl).
  - exact (proj2 (proj2 (proj2 H3)) _ _ _ _ _ [x00; x61; x00; x00] eq_refl eq_refl).
Defined.

(** C10.  With [lower = 0] (and [upper], an unsigned number, not
    negative), a source that opens and holds no zero byte is
    reported at verbosity 1 and above with the "seems corrupted" line on
    the error stream (0 >= 0), while [retcode] stays as it was; run as
    [zcount -v -l 0 FILE] the program prints that line and returns 0. *)
Theorem zero_lower_reports_without_counting (arg : string) (st : argp_state) (w : world) :
  let a := input st in
  0 <= upper a -> lower a = 0 -> 1 <= verbosity a ->
  (forall fp, fopen w arg = Opened fp -> zero_bytes fp = 0 ->
     let r := parse_opt ARGP_KEY_ARG arg st w in
     printed (world_of r) = printed w ++ [(stderr, msg_file_corrupted arg 0)] /\
     retcode (args_of r) = retcode a) /\
  (zero_bytes (stdin w) = 0 ->
     let r := parse_opt ARGP_KEY_NO_ARGS arg st w in
     printed (world_of r) = printed w ++ [(stderr, msg_stdin_corrupted 0)] /\
     retcode (args_of r) = retcode a) /\
  (forall u words n1 n2 n3 fp, fopen w arg = Opened fp -> zero_bytes fp = 0 ->
     main u words [Option_v n1; Option_l "0" n2; Argument arg n3] w =
     (0, fprintf stderr (arg ++ ": seems corrupted, 0 zero-bytes counted" ++ nl)%string w)).
Proof.
  cbv zeta. intros Hu Hl Hv.
  assert (Heff : effective_lower (input st) = 0).
  { unfold effective_lower. rewrite Hl.
    destruct (Z.ltb_spec (upper (input st)) 0), (Z.eqb_spec (upper (input st)) 0);
      cbn [andb negb]; lia. }
  assert (Hpos : (verbosity (input st) <=? 0) = false) by (apply Z.leb_gt; lia).
  split; [|split].
  - intros fp Hfp Hz. rewrite (parse_opt_file _ _ _ fp Hfp). cbv zeta.
    rewrite (countZB_no_zero_bytes _ _ Hz).
    unfold world_of, args_of. cbn [fst snd print_all printed]. split.
    + unfold file_report, classified_corrupted. rewrite Hpos, Heff. reflexivity.
    + rewrite count_suspicious_retcode. reflexivity.
  - intros Hz. rewrite parse_opt_stdin. cbv zeta.
    rewrite (countZB_no_zero_bytes _ _ Hz).
    unfold world_of, args_of. cbn [fst snd print_all printed set_stdin]. split.
    + unfold stdin_report, classified_corrupted. rewrite Hpos, Heff. reflexivity.
    + rewrite count_suspicious_retcode. reflexivity.
  - intros u words n1 n2 n3 fp Hfp Hz. unfold main.
    erewrite argp_parse_with_args.
    2: { erewrite parse_events_ok by apply deliver_v.
         erewrite parse_events_ok by (rewrite deliver_l; reflexivity).
         erewrite parse_events_ok by (apply (deliver_file _ _ _ _ _ fp); exact Hfp).
         cbn [is_argument]. rewrite (countZB_no_zero_bytes _ _ Hz).
         apply parse_events_nil. }
    reflexivity.
Qed.

Lemma zero_lower_reports_without_counting_witness :
  let r := parse_opt ARGP_KEY_ARG "clean"
             (mkState (mkArguments 1 0 0 0) ["zcount"; "clean"]%string 2) sample_world in
  (printed (world_of r) = [(stderr, msg_file_corrupted "clean" 0)] /\
   retcode (args_of r) = 0) /\
  main (mkArguments 9 9 9 9) ["zcount"; "-v"; "-l"; "0"; "clean"]%string
       [Option_v 2; Option_l "0" 4; Argument "clean" 5] sample_world =
    (0, fprintf stderr ("clean" ++ ": seems corrupted, 0 zero-bytes counted" ++ nl)%string
          sample_world).
Proof.
  cbv zeta.
  assert (Hu : 0 <= 0) by lia.
  assert (Hv : 1 <= 1) by lia.
  pose proof (zero_lower_reports_without_counting "clean"
                (mkState (mkArguments 1 0 0 0) ["zcount"; "clean"]%string 2)
                sample_world Hu eq_refl Hv) as H.
  split.
  - exact (proj1 H [x61; x62; x63] eq_refl eq_refl).
  - exact (proj2 (proj2 H) _ _ _ _ _ [x61; x62; x63] eq_refl eq_refl).
Defined.

(** ** Failures: claims C8 and C7 *)

(** C8.  A non-option argument that cannot be opened is not a fatal error:
    the callback returns 0, the line "<name>: <strerror(errno)>" goes to the
    error stream, [struct arguments] (with [retcode]) is left as it was, and
    [argp_parse] goes on to the items that follow. *)
Theorem open_failure_is_not_fatal (words : list string) (arg : string) (n : nat)
  (rest : list argp_event) (a : arguments) (w : world) (nargs : nat) (errno : Z) :
  fopen w arg = OpenFailed errno ->
  let diagnostic := (arg ++ ": " ++ strerror errno ++ nl)%string in
  parse_opt ARGP_KEY_ARG arg (mkState a words n) w = (0, a, fprintf stderr diagnostic w) /\
  parse_events words (Argument arg n :: rest) a w nargs =
    parse_events words rest a (fprintf stderr diagnostic w) (S nargs).
Proof.
  intros H. cbv zeta. split.
  - rewrite (parse_opt_open_failed _ _ _ errno H). reflexivity.
  - rewrite (parse_events_ok _ _ _ _ _ _ _ _ (deliver_open_failed words _ n a _ errno H)).
    reflexivity.
Qed.

Lemma open_failure_is_not_fatal_witness :
  parse_opt ARGP_KEY_ARG "secret"
    (mkState (mkArguments 1 0 1 0) ["zcount"; "-v"; "secret"; "one"]%string 3) sample_world =
    (0, mkArguments 1 0 1 0,
     fprintf stderr ("secret" ++ ": " ++ "Permission denied" ++ nl)%string sample_world) /\
  parse_events ["zcount"; "-v"; "secret"; "one"]%string
    [Argument "secret" 3; Argument "one" 4] (mkArguments 1 0 1 0) sample_world 0 =
  parse_events ["zcount"; "-v"; "secret"; "one"]%string
    [Argument "one" 4] (mkArguments 1 0 1 0)
    (fprintf stderr ("secret" ++ ": " ++ "Permission denied" ++ nl)%string sample_world) 1.
Proof.
  exact (open_failure_is_not_fatal ["zcount"; "-v"; "secret"; "one"]%string "secret" 3
           [Argument "one" 4] (mkArguments 1 0 1 0) sample_world 0 13 eq_refl).
Defined.

(** *** strtoul *)

Lemma skip_space_suffix (s : string) :
  exists pre, s = (pre ++ skip_space s)%string.
Proof.
  induction s as [|c s IH].
  - exists EmptyString. reflexivity.
  - cbn [skip_space]. destruct (isspace c).
    + destruct IH as [pre Hpre]. exists (String c pre). cbn [append]. f_equal. exact Hpre.
    + exists EmptyString. reflexivity.
Qed.

Lemma scan_digits_suffix (base : Z) (s : string) : forall acc,
  exists pre, s = (pre ++ snd (scan_digits base acc s))%string.
Proof.
  induction s as [|c s IH]; intros acc.
  - exists EmptyString. reflexivity.
  - cbn [scan_digits]. destruct (digit_val c) as [d|].
    + destruct (d <? base).
      * destruct (IH (acc * base + d)) as [pre Hpre].
        destruct (scan_digits base (acc * base + d) s) as [[v k] tail].
        exists (String c pre). cbn [snd append] in *. f_equal. exact Hpre.
      * exists EmptyString. reflexivity.
    + exists EmptyString. reflexivity.
Qed.

Lemma digit_val_nonneg (c : ascii) (d : Z) : digit_val c = Some d -> 0 <= d.
Proof.
  unfold digit_val.
  repeat match goal with
  | |- context [Z.leb ?x ?y] => destruct (Z.leb_spec x y)
  end; cbn [andb]; intros Hd; inversion Hd; lia.
Qed.

Lemma scan_digits_nonneg (base : Z) (s : string) : forall acc,
  0 <= base -> 0 <= acc -> 0 <= fst (fst (scan_digits base acc s)).
Proof.
  induction s as [|c s IH]; intros acc Hb Hacc.
  - exact Hacc.
  - cbn [scan_digits]. destruct (digit_val c) as [d|] eqn:Hd; [|exact Hacc].
    destruct (d <? base); [|exact Hacc].
    apply digit_val_nonneg in Hd.
    specialize (IH (acc * base + d) Hb ltac:(nia)).
    destruct (scan_digits base (acc * base + d) s) as [[v k] tail]. exact IH.
Qed.

Lemma string_app_assoc (s1 s2 s3 : string) :
  ((s1 ++ s2) ++ s3 = s1 ++ (s2 ++ s3))%string.
Proof.
  induction s1 as [|c s1 IH]; [reflexivity|].
  cbn [append]. f_equal. exact IH.
Qed.

Lemma strip_sign_suffix (s : string) :
  exists pre, s = (pre ++ snd (strip_sign s))%string.
Proof.
  destruct s as [|c s]; [exists EmptyString; reflexivity|].
  cbn [strip_sign]. destruct (Ascii.eqb c "-"); [|destruct (Ascii.eqb c "+")].
  - exists (String c EmptyString). reflexivity.
  - exists (String c EmptyString). reflexivity.
  - exists EmptyString. reflexivity.
Qed.

Lemma scan_numeral_suffix (s tail : string) (v : Z) :
  scan_numeral s = Some (v, tail) -> exists pre, s = (pre ++ tail)%string.
Proof.
  destruct s as [|c after0]; [discriminate|]. cbn [scan_numeral].
  destruct (Ascii.eqb c "0").
  - destruct after0 as [|x hex].
    + intros H. injection H as _ <-. exists (String c EmptyString). reflexivity.
    + destruct (is_x x).
      * destruct (scan_digits_suffix 16 hex 0) as [pre Hpre].
        destruct (scan_digits 16 0 hex) as [[v' k] tail']. cbn [snd] in Hpre.
        destruct k; intros H; injection H as _ <-.
        -- exists (String c EmptyString). reflexivity.
        -- exists (String c (String x pre)). cbn [append]. do 2 f_equal. exact Hpre.
      * destruct (scan_digits_suffix 8 (String c (String x hex)) 0) as [pre Hpre].
        destruct (scan_digits 8 0 (String c (String x hex))) as [[v' k] tail'].
        cbn [snd] in Hpre. intros H. injection H as _ <-. exists pre. exact Hpre.
  - destruct (scan_digits_suffix 10 (String c after0) 0) as [pre Hpre].
    destruct (scan_digits 10 0 (String c after0)) as [[v' k] tail'].
    cbn [snd] in Hpre. destruct k; [discriminate|].
    intros H. injection H as _ <-. exists pre. exact Hpre.
Qed.

Lemma scan_numeral_nonneg (s tail : string) (v : Z) :
  scan_numeral s = Some (v, tail) -> 0 <= v.
Proof.
  destruct s as [|c after0]; [discriminate|]. cbn [scan_numeral].
  destruct (Ascii.eqb c "0").
  - destruct after0 as [|x hex].
    + intros H. injection H as <- _. lia.
    + destruct (is_x x).
      * pose proof (scan_digits_nonneg 16 hex 0 ltac:(lia) ltac:(lia)) as Hv.
        destruct (scan_digits 16 0 hex) as [[v' k] tail']. cbn [fst] in Hv.
        destruct k; intros H; injection H as <- _; lia.
      * pose proof (scan_digits_nonneg 8 (String c (String x hex)) 0
                      ltac:(lia) ltac:(lia)) as Hv.
        destruct (scan_digits 8 0 (String c (String x hex))) as [[v' k] tail'].
        cbn [fst] in Hv. intros H. injection H as <- _. exact Hv.
  - pose proof (scan_digits_nonneg 10 (String c after0) 0 ltac:(lia) ltac:(lia)) as Hv.
    destruct (scan_digits 10 0 (String c after0)) as [[v' k] tail'].
    cbn [fst] in Hv. destruct k; [discriminate|].
    intros H. injection H as <- _. exact Hv.
Qed.

(** What [strtoul] leaves unparsed is a tail of its argument. *)
Lemma strtoul_tail_suffix (nptr : string) :
  exists pre, nptr = (pre ++ snd (strtoul nptr))%string.
Proof.
  unfold strtoul.
  destruct (skip_space_suffix nptr) as [p0 H0].
  destruct (strip_sign_suffix (skip_space nptr)) as [p1 H1].
  destruct (strip_sign (skip_space nptr)) as [negative s]. cbn [snd] in H1.
  destruct (scan_numeral s) as [[v tail]|] eqn:Hnum.
  - destruct (scan_numeral_suffix _ _ _ Hnum) as [p2 H2]. cbn [snd].
    exists (p0 ++ p1 ++ p2)%string.
    rewrite H0 at 1. rewrite H1, H2.
    rewrite !string_app_assoc. reflexivity.
  - exists EmptyString. reflexivity.
Qed.

(** The value of [strtoul] is an [unsigned long]. *)
Lemma strtoul_range (nptr : string) : 0 <= fst (strtoul nptr) <= ULONG_MAX.
Proof.
  unfold strtoul.
  destruct (strip_sign (skip_space nptr)) as [negative s].
  destruct (scan_numeral s) as [[v tail]|] eqn:Hnum; cbn [fst].
  - apply scan_numeral_nonneg in Hnum.
    destruct (Z.ltb_spec ULONG_MAX v); [unfold ULONG_MAX; lia|].
    destruct negative; [|lia].
    unfold to_ulong.
    pose proof (Z.mod_pos_bound (- v) (ULONG_MAX + 1) ltac:(unfold ULONG_MAX; lia)).
    lia.
  - unfold ULONG_MAX. lia.
Qed.

Lemma string_length_app (s1 s2 : string) :
  String.length (s1 ++ s2) = (String.length s1 + String.length s2)%nat.
Proof.
  induction s1 as [|c s1 IH]; [reflexivity|].
  cbn [append String.length]. rewrite IH. reflexivity.
Qed.

(** The test [**tailptr != '\0'] holds exactly when [strtoul] stopped before
    the end of the argument. *)
Lemma nonempty_tail_iff (arg : string) :
  nonempty (snd (strtoul arg)) = true <->
  (strtoul_consumed arg < String.length arg)%nat.
Proof.
  unfold strtoul_consumed.
  destruct (strtoul_tail_suffix arg) as [pre H].
  set (tail := snd (strtoul arg)) in *. clearbody tail. subst arg.
  rewrite string_length_app.
  destruct tail as [|c tail]; cbn [nonempty String.length]; split; intros Hx;
    try reflexivity; try discriminate; lia.
Qed.

(** C7.  For the upper-limit and the lower-limit option alike, the callback
    fails with [EINVAL] exactly when [strtoul] (base 0: decimal, octal or
    hexadecimal) consumes less than the whole option argument.  It then
    prints "'<word>' is not a non-negative integer" on the error stream,
    <word> being [argv\[next-1\]], and [argp_parse] delivers none of the
    items that follow.  Otherwise it returns 0, prints nothing, and the
    field ([upper] or [lower]) holds the parsed value. *)
Theorem limit_option_fails_iff_partly_parsed (arg : string) (words : list string)
  (n : nat) (a : arguments) (w : world) :
  let v := fst (strtoul arg) in
  let partly := (strtoul_consumed arg < String.length arg)%nat in
  let diagnostic := msg_not_integer (nth (n - 1) words EmptyString) in
  let ru := parse_opt key_u arg (mkState a words n) w in
  let rl := parse_opt key_l arg (mkState a words n) w in
  (err_of ru = EINVAL <-> partly) /\
  (err_of rl = EINVAL <-> partly) /\
  (partly ->
   world_of ru = fprintf stderr diagnostic w /\
   world_of rl = fprintf stderr diagnostic w /\
   forall rest nargs,
     parse_events words (Option_u arg n :: rest) a w nargs =
       (EINVAL, set_upper v a, fprintf stderr diagnostic w, nargs) /\
     parse_events words (Option_l arg n :: rest) a w nargs =
       (EINVAL, set_lower v a, fprintf stderr diagnostic w, nargs)) /\
  (~ partly ->
   ru = (0, set_upper v a, w) /\ rl = (0, set_lower v a, w)).
Proof.
  cbv zeta. rewrite parse_opt_u, parse_opt_l. cbv zeta.
  cbn [input argv next].
  pose proof (nonempty_tail_iff arg) as Hiff.
  destruct (nonempty (snd (strtoul arg))) eqn:Hne; unfold err_of, world_of; cbn [fst snd].
  - assert (Hp : (strtoul_consumed arg < String.length arg)%nat) by (apply Hiff; reflexivity).
    repeat split; trivial; try contradiction.
    + apply parse_events_stop; [|discriminate].
      rewrite deliver_u, Hne. reflexivity.
    + apply parse_events_stop; [|discriminate].
      rewrite deliver_l, Hne. reflexivity.
  - assert (Hp : ~ (strtoul_consumed arg < String.length arg)%nat).
    { intros Hx. apply Hiff in Hx. discriminate. }
    repeat split; trivial; try discriminate; try contradiction.
Qed.

Lemma limit_option_fails_iff_partly_parsed_witness :
  parse_events ["zcount"; "-u"; "12abc"; "one"]%string
    [Option_u "12abc" 3; Argument "one" 4] (mkArguments 0 0 1 0) sample_world 0 =
    (EINVAL, mkArguments 0 12 1 0,
     fprintf stderr (msg_not_integer "12abc") sample_world, 0%nat) /\
  parse_opt key_l "0x1F" (mkState (mkArguments 0 0 1 0) ["zcount"; "--lower=0x1F"]%string 2)
    sample_world = (0, mkArguments 0 0 31 0, sample_world).
Proof.
  split.
  - refine (proj1 (proj2 (proj2 (proj1 (proj2 (proj2
      (limit_option_fails_iff_partly_parsed "12abc" ["zcount"; "-u"; "12abc"; "one"]%string
         3 (mkArguments 0 0 1 0) sample_world))) _)) [Argument "one" 4] 0%nat)).
    cbn. lia.
  - refine (proj2 (proj2 (proj2 (proj2
      (limit_option_fails_iff_partly_parsed "0x1F" ["zcount"; "--lower=0x1F"]%string
         2 (mkArguments 0 0 1 0) sample_world))) _)).
    cbn. lia.
Defined.

(** ** The exit code: claims C6 and C1 *)

Lemma count_with_zeros_app (l1 l2 : list (Z * arguments)) :
  count_with_zeros (l1 ++ l2) = count_with_zeros l1 + count_with_zeros l2.
Proof.
  unfold count_with_zeros. rewrite filter_app, length_app. lia.
Qed.

Lemma count_with_zeros_nonneg (l : list (Z * arguments)) : 0 <= count_with_zeros l.
Proof. unfold count_with_zeros. lia. Qed.

(** The saturating increment, as a minimum. *)
Lemma count_suspicious_min (zeros : Z) (a : arguments) :
  retcode a <= INT_MAX ->
  retcode (count_suspicious zeros (clamp_lower a)) =
  Z.min INT_MAX (retcode a + count_with_zeros [(zeros, a)]).
Proof.
  intros Hr. rewrite count_suspicious_retcode.
  unfold count_with_zeros. cbn [filter fst].
  destruct (Z.ltb_spec 0 zeros), (Z.ltb_spec (retcode a) INT_MAX);
    cbn [andb List.length]; lia.
Qed.

(** What the calls for the items do to [retcode]. *)
Lemma parse_events_retcode (words : list string) (evs : list argp_event) :
  forall a w nargs,
  retcode a <= INT_MAX ->
  retcode (snd (fst (fst (parse_events words evs a w nargs)))) =
  Z.min INT_MAX (retcode a + count_with_zeros (classified_by words evs a w)).
Proof.
  induction evs as [|e rest IH]; intros a w nargs Hr.
  - cbn [parse_events classified_by fst snd]. change (count_with_zeros []) with 0. lia.
  - cbn [parse_events classified_by].
    assert (Hstep : exists err a' w',
              deliver words e a w = (err, a', w') /\
              retcode a' = Z.min INT_MAX (retcode a + count_with_zeros
                (match e with
                 | Argument arg _ =>
                     match fopen w arg with
                     | Opened fp => [(countZB fp (upper a), a)]
                     | OpenFailed _ => []
                     end
                 | _ => []
                 end))).
    { destruct e as [n|arg n|arg n|arg n].
      - rewrite deliver_v. do 3 eexists. split; [reflexivity|].
        change (count_with_zeros []) with 0.
        destruct (verbosity a <? INT_MAX); cbn [retcode set_verbosity]; lia.
      - rewrite deliver_u. destruct (nonempty (snd (strtoul arg)));
          do 3 eexists; (split; [reflexivity|]);
          change (count_with_zeros []) with 0; cbn [retcode set_upper set_lower]; lia.
      - rewrite deliver_l. destruct (nonempty (snd (strtoul arg)));
          do 3 eexists; (split; [reflexivity|]);
          change (count_with_zeros []) with 0; cbn [retcode set_upper set_lower]; lia.
      - destruct (fopen w arg) as [fp|errno] eqn:Hfp.
        + rewrite (deliver_file _ _ _ _ _ fp Hfp). do 3 eexists.
          split; [reflexivity|]. apply count_suspicious_min, Hr.
        + rewrite (deliver_open_failed _ _ _ _ _ errno Hfp). do 3 eexists.
          split; [reflexivity|]. change (count_with_zeros []) with 0. lia. }
    destruct Hstep as [err [a' [w' [Hd Hret]]]]. rewrite Hd.
    set (here := match e with
                 | Argument arg _ =>
                     match fopen w arg with
                     | Opened fp => [(countZB fp (upper a), a)]
                     | OpenFailed _ => []
                     end
                 | _ => []
                 end) in *.
    pose proof (count_with_zeros_nonneg here) as Hh.
    destruct (err =? 0).
    + rewrite IH by lia. rewrite count_with_zeros_app, Hret.
      pose proof (count_with_zeros_nonneg (classified_by words rest a' w')). lia.
    + cbn [fst snd]. exact Hret.
Qed.

(** What [main] returns: the number of classified sources in which a zero
    byte is counted, capped at [INT_MAX]. *)
Lemma main_returns_sources_with_zero_bytes (u : arguments) (words : list string)
  (evs : list argp_event) (w : world) :
  fst (main u words evs w) = Z.min INT_MAX (count_with_zeros (sources_of_run words evs w)).
Proof.
  unfold main, sources_of_run.
  pose proof (parse_events_retcode words evs (mkArguments 0 0 1 0) w 0
                ltac:(cbn [retcode]; unfold INT_MAX; lia)) as H.
  destruct (parse_events words evs (mkArguments 0 0 1 0) w 0)
    as [[[err a] w'] nargs] eqn:Hpe.
  cbn [fst snd retcode] in H. rewrite Z.add_0_l in H.
  rewrite count_with_zeros_app.
  pose proof (count_with_zeros_nonneg (classified_by words evs (mkArguments 0 0 1 0) w)) as Hc.
  destruct (Z.eqb_spec err 0) as [->|Hne].
  - destruct nargs as [|k].
    + rewrite (argp_parse_no_args _ _ u _ _ _ Hpe), parse_opt_stdin. cbv zeta.
      cbn [fst snd input]. rewrite count_suspicious_min by lia. rewrite H.
      pose proof (count_with_zeros_nonneg [(countZB (stdin w') (upper a), a)]). lia.
    + rewrite (argp_parse_with_args _ _ u _ _ _ _ Hpe). cbn [fst snd].
      rewrite H. change (count_with_zeros []) with 0. lia.
  - rewrite (argp_parse_failed _ _ u _ _ _ _ _ Hpe Hne). cbn [fst snd].
    rewrite H. change (count_with_zeros []) with 0. lia.
Qed.

(** A rejected limit option that no non-option argument precedes: parsing
    ends in an error and no source has been classified. *)
Lemma rejected_option_stops_run (words : list string) (bad : argp_event)
  (rest : list argp_event) (opts : list argp_event) :
  (forall a w, err_of (deliver words bad a w) <> 0) ->
  is_argument bad = false ->
  (forall e, In e opts -> is_argument e = false) ->
  forall a w nargs,
  fst (fst (fst (parse_events words (opts ++ bad :: rest) a w nargs))) <> 0 /\
  classified_by words (opts ++ bad :: rest) a w = [].
Proof.
  intros Hbad Hnarg Hopts.
  induction opts as [|e opts IH]; intros a w nargs.
  - cbn [app parse_events classified_by].
    specialize (Hbad a w). unfold err_of in Hbad.
    destruct (deliver words bad a w) as [[err a'] w']. cbn [fst] in Hbad.
    apply Z.eqb_neq in Hbad as Hb. rewrite Hb. cbn [fst].
    split; [exact Hbad|]. destruct bad; [reflexivity ..|discriminate].
  - cbn [app parse_events classified_by].
    assert (He : is_argument e = false) by (apply Hopts; left; reflexivity).
    assert (Hrest : forall x, In x opts -> is_argument x = false)
      by (intros x Hx; apply Hopts; right; exact Hx).
    destruct (deliver words e a w) as [[err a'] w'].
    destruct (Z.eqb_spec err 0) as [->|Hne].
    + destruct (IH Hrest a' w' (if is_argument e then S nargs else nargs)) as [H1 H2].
      split; [exact H1|]. rewrite H2. destruct e; [reflexivity ..|discriminate].
    + cbn [fst]. split; [exact Hne|]. destruct e; [reflexivity ..|discriminate].
Qed.

(** C6 (the code departs from it).  The claim: an option value that is not
    a non-negative integer literal makes the program abort with a usage
    error and a non-zero exit status, before any file is processed.  When
    [strtoul] stops short of the end of the value of [-u] or [-l], and the
    option comes before the non-option arguments (the order in which argp
    hands them over), no source is classified but [main] returns 0: it
    drops the [EINVAL] that [argp_parse] returns.  And the values "-5" and
    the empty value are accepted: [strtoul] parses them to the end. *)
Theorem invalid_limit_exits_with_zero (u : arguments) (words : list string) (w : world) :
  (forall opts arg n rest,
     (forall e, In e opts -> is_argument e = false) ->
     (strtoul_consumed arg < String.length arg)%nat ->
     (err_of (argp_parse words (opts ++ Option_u arg n :: rest) u w) <> 0 /\
      sources_of_run words (opts ++ Option_u arg n :: rest) w = [] /\
      fst (main u words (opts ++ Option_u arg n :: rest) w) = 0) /\
     (err_of (argp_parse words (opts ++ Option_l arg n :: rest) u w) <> 0 /\
      sources_of_run words (opts ++ Option_l arg n :: rest) w = [] /\
      fst (main u words (opts ++ Option_l arg n :: rest) w) = 0)) /\
  parse_opt key_u "-5" (mkState (mkArguments 0 0 1 0) words 2) w =
    (0, mkArguments 0 (ULONG_MAX - 4) 1 0, w) /\
  parse_opt key_l EmptyString (mkState (mkArguments 0 0 1 0) words 2) w =
    (0, mkArguments 0 0 0 0, w).
Proof.
  split; [|split; reflexivity].
  intros opts arg n rest Hopts Hpartly.
  apply nonempty_tail_iff in Hpartly.
  assert (Hrun : forall bad,
            (forall a w0, err_of (deliver words bad a w0) <> 0) ->
            is_argument bad = false ->
            err_of (argp_parse words (opts ++ bad :: rest) u w) <> 0 /\
            sources_of_run words (opts ++ bad :: rest) w = [] /\
            fst (main u words (opts ++ bad :: rest) w) = 0).
  { intros bad Hbad Hnarg.
    destruct (rejected_option_stops_run words bad rest opts Hbad Hnarg Hopts
                (mkArguments 0 0 1 0) w 0%nat) as [Herr Hnone].
    assert (Hsrc : sources_of_run words (opts ++ bad :: rest) w = []).
    { unfold sources_of_run. rewrite Hnone.
      destruct (parse_events words (opts ++ bad :: rest) (mkArguments 0 0 1 0) w 0)
        as [[[err a] w'] k]. cbn [fst] in Herr.
      apply Z.eqb_neq in Herr. rewrite Herr. reflexivity. }
    split; [|split].
    - destruct (parse_events words (opts ++ bad :: rest) (mkArguments 0 0 1 0) w 0)
        as [[[err a] w'] k] eqn:Hpe. cbn [fst] in Herr.
      rewrite (argp_parse_failed _ _ u _ _ _ _ _ Hpe Herr). exact Herr.
    - exact Hsrc.
    - rewrite main_returns_sources_with_zero_bytes, Hsrc. reflexivity. }
  split; apply Hrun; try reflexivity; intros a w0; unfold err_of.
  - rewrite deliver_u, Hpartly. discriminate.
  - rewrite deliver_l, Hpartly. discriminate.
Qed.

Lemma invalid_limit_exits_with_zero_witness :
  let words := ["zcount"; "-v"; "--upper=abc"; "one"]%string in
  let evs := [Option_v 2] ++ Option_u "abc" 3 :: [Argument "one" 4] in
  err_of (argp_parse words evs (mkArguments 9 9 9 9) sample_world) <> 0 /\
  sources_of_run words evs sample_world = [] /\
  fst (main (mkArguments 9 9 9 9) words evs sample_world) = 0.
Proof.
  cbv zeta.
  refine (proj1 (proj1 (invalid_limit_exits_with_zero (mkArguments 9 9 9 9)
            ["zcount"; "-v"; "--upper=abc"; "one"]%string sample_world)
            [Option_v 2] "abc"%string 3%nat [Argument "one" 4] _ _)).
  - intros e [<-|[]]. reflexivity.
  - cbn. lia.
Defined.

(** C1 (the code departs from it).  The claim, and the program's own help
    text: the exit code is the number of sources with at least [lower]
    zero bytes.  What [main] returns is the number of classified sources in
    which any zero byte is counted, capped at [INT_MAX].  On
    [zcount -l 3 one], where the file holds a single zero byte, the one
    source classified is not corrupted (1 < 3), yet [main] returns 1. *)
Theorem exit_code_counts_below_lower (u : arguments) (words : list string)
  (evs : list argp_event) (w : world) :
  fst (main u words evs w) = Z.min INT_MAX (count_with_zeros (sources_of_run words evs w)) /\
  let words1 := ["zcount"; "-l"; "3"; "one"]%string in
  let evs1 := [Option_l "3" 3; Argument "one" 4] in
  sources_of_run words1 evs1 sample_world = [(1, mkArguments 0 0 3 0)] /\
  count_corrupted (sources_of_run words1 evs1 sample_world) = 0 /\
  fst (main u words1 evs1 sample_world) = 1.
Proof.
  split; [apply main_returns_sources_with_zero_bytes|].
  cbv zeta. repeat split.
Qed.

(** * Further properties of the counter *)

Lemma to_uchar_byte (b : byte) : to_uchar (byte_val b) = byte_val b.
Proof.
  unfold to_uchar. apply Z.mod_small. apply byte_val_range.
Qed.

(** With [char] signed, the capped and the unlimited loop agree up to the
    cap. *)
Lemma countZB_loop_min (C : Z) (fp : FILE) : forall zeros,
  0 <= zeros <= C -> C <= ULONG_MAX ->
  fst (countZB_loop C zeros fp) = Z.min C (fst (countZB_loop ULONG_MAX zeros fp)).
Proof.
  induction fp as [|b rest IH]; intros zeros Hz HC.
  - cbn [countZB_loop fst]. lia.
  - destruct (Z.eq_dec zeros C) as [->|Hne].
    + rewrite countZB_loop_halted by lia. cbn [fst].
      pose proof (countZB_loop_bounds ULONG_MAX (b :: rest) C ltac:(lia)) as Hb.
      cbv zeta in Hb. lia.
    + rewrite !countZB_loop_cons.
      assert (H1 : (zeros <? C) = true) by (apply Z.ltb_lt; lia).
      assert (H2 : (zeros <? ULONG_MAX) = true) by (apply Z.ltb_lt; lia).
      rewrite H1, H2. destruct (negb (is_eof_byte b)); cbn [andb fst]; [|lia].
      destruct (is_zero_byte b).
      * rewrite to_ulong_small by lia. apply IH; lia.
      * apply IH; lia.
Qed.

(** X1.  A cap only cuts the count off: for a cap [C > 0] the result of
    [countZB] is the smaller of [C] and the result without a cap. *)
Theorem countZB_cap_is_min (S : FILE) (C : Z) :
  0 < C <= ULONG_MAX ->
  countZB S C = Z.min C (countZB S 0).
Proof.
  intros HC. unfold countZB.
  rewrite countZB_run_capped by lia. rewrite countZB_run_unlimited.
  apply countZB_loop_min; lia.
Qed.

Lemma countZB_cap_is_min_witness :
  countZB [x00; x61; x00; x00; xff; x00] 2 =
  Z.min 2 (countZB [x00; x61; x00; x00; xff; x00] 0).
Proof.
  apply countZB_cap_is_min. unfold ULONG_MAX. lia.
Defined.

(** X2.  On a stream without a byte 0xFF, [countZB] returns the number of
    zero bytes of the stream, or the cap when the stream has more (the cap
    being [ULONG_MAX] for [upper = 0]). *)
Theorem countZB_exact_without_0xff (S : FILE) (C : Z) :
  0 <= C <= ULONG_MAX ->
  forallb (fun b => negb (is_eof_byte b)) S = true ->
  countZB S C = Z.min (cap_of C) (zero_bytes S).
Proof.
  intros HC Hff. unfold countZB, countZB_run, cap_of.
  assert (Hcap : 0 <= (if C =? 0 then ULONG_MAX else C) <= ULONG_MAX).
  { destruct (Z.eqb_spec C 0); unfold ULONG_MAX in *; lia. }
  rewrite countZB_loop_capped_exact by (trivial; lia). reflexivity.
Qed.

Lemma countZB_exact_without_0xff_witness :
  countZB [x00; x61; x00; x62; x00] 0 = Z.min (cap_of 0) 3 /\
  countZB [x00; x61; x00; x62; x00] 2 = Z.min (cap_of 2) 3.
Proof.
  split.
  - refine (countZB_exact_without_0xff [x00; x61; x00; x62; x00] 0 _ eq_refl).
    unfold ULONG_MAX. lia.
  - refine (countZB_exact_without_0xff [x00; x61; x00; x62; x00] 2 _ eq_refl).
    unfold ULONG_MAX. lia.
Defined.

(** X3.  [countZB] never counts a zero byte that is not there: whatever the
    cap and the bytes, its result lies between 0 and the number of zero
    bytes of the stream, and within [unsigned long] ("does not allow the
    counter to overrun"). *)
Theorem countZB_never_overcounts (S : FILE) (C : Z) :
  0 <= countZB S C /\ countZB S C <= zero_bytes S /\ countZB S C <= ULONG_MAX.
Proof.
  unfold countZB, countZB_run.
  pose proof (countZB_loop_bounds (if C =? 0 then ULONG_MAX else C) S 0 ltac:(lia)) as H.
  cbv zeta in H. unfold ULONG_MAX in *. lia.
Qed.

(** X4.  With [char] signed the loop of [countZB] ends: after at most one
    test of its condition per byte of the stream and one more it has left,
    with the count and the stream that [countZB_run] gives. *)
Theorem countZB_loop_terminates (fp : FILE) (upper : Z) (fuel : nat) :
  (List.length fp < fuel)%nat ->
  countZB_while to_char fuel (cap_of upper) 0 fp = Some (countZB_run fp upper).
Proof.
  unfold countZB_run, cap_of. generalize (if upper =? 0 then ULONG_MAX else upper).
  intros u Hf.
  assert (H : forall k zeros, (List.length fp < k)%nat ->
            countZB_while to_char k u zeros fp = Some (countZB_loop u zeros fp)).
  { clear. induction fp as [|b rest IH]; intros k zeros Hk.
    - destruct k as [|k]; [inversion Hk | reflexivity].
    - destruct k as [|k]; [inversion Hk|].
      cbn [List.length] in Hk.
      cbn [countZB_while getc countZB_loop]. cbv zeta.
      destruct (negb (to_char (byte_val b) =? EOF) && (zeros <? u) && (zeros <? ULONG_MAX));
        [apply IH; lia | reflexivity]. }
  apply H, Hf.
Qed.

Lemma countZB_loop_terminates_witness :
  countZB_while to_char 5 (cap_of 0) 0 [x00; x61; x00] = Some (countZB_run [x00; x61; x00] 0).
Proof.
  apply countZB_loop_terminates. cbn. lia.
Defined.

(** X5.  Where [char] is unsigned, [c != EOF] never fails, so the loop of
    [countZB] leaves only through its cap: on a stream with fewer zero
    bytes than the cap (and than [ULONG_MAX]) it has not returned after any
    number of tests. *)
Theorem countZB_unsigned_char_never_returns (fp : FILE) (upper : Z) (fuel : nat) :
  zero_bytes fp < cap_of upper -> zero_bytes fp < ULONG_MAX ->
  countZB_while to_uchar fuel (cap_of upper) 0 fp = None.
Proof.
  generalize (cap_of upper). intros u.
  assert (H : forall zeros, 0 <= zeros ->
            zeros + zero_bytes fp < u -> zeros + zero_bytes fp < ULONG_MAX ->
            countZB_while to_uchar fuel u zeros fp = None).
  { revert fuel. induction fp as [|b rest IH]; intros fuel zeros Hz Hu Hm.
    - cbn [zero_bytes] in *. apply countZB_while_unsigned_at_eof; lia.
    - destruct fuel as [|fuel]; [reflexivity|].
      cbn [countZB_while getc zero_bytes] in *. cbv zeta.
      rewrite to_uchar_byte.
      pose proof (byte_val_range b) as Hb.
      pose proof (zero_bytes_nonneg rest) as Hr.
      assert (Hz0 : 0 <= (if is_zero_byte b then 1 else 0) <= 1)
        by (destruct (is_zero_byte b); lia).
      destruct (Z.eqb_spec (byte_val b) EOF) as [He|_]; [unfold EOF in He; lia|].
      assert (H1 : (zeros <? u) = true) by (apply Z.ltb_lt; lia).
      assert (H2 : (zeros <? ULONG_MAX) = true) by (apply Z.ltb_lt; lia).
      rewrite H1, H2. cbn [negb andb].
      change (byte_val b =? 0) with (is_zero_byte b).
      destruct (is_zero_byte b).
      + rewrite to_ulong_small by lia. apply IH; lia.
      + apply IH; lia. }
  intros Hu Hm. apply H; lia.
Qed.

Lemma countZB_unsigned_char_never_returns_witness :
  countZB_while to_uchar 1000 (cap_of 0) 0 [x61; x00; x62] = None.
Proof.
  apply countZB_unsigned_char_never_returns; cbn; unfold ULONG_MAX; lia.
Defined.

(** * Further properties of the callback and of whole runs *)

(** The [default] case of the [switch]. *)
Lemma parse_opt_other (key : Z) (arg : string) (st : argp_state) (w : world) :
  key <> ARGP_KEY_INIT -> key <> key_v -> key <> key_u -> key <> key_l ->
  key <> ARGP_KEY_ARG -> key <> ARGP_KEY_NO_ARGS -> key <> ARGP_KEY_ERROR ->
  parse_opt key arg st w = (ARGP_ERR_UNKNOWN, input st, w).
Proof.
  intros H1 H2 H3 H4 H5 H6 H7. unfold parse_opt.
  apply Z.eqb_neq in H1, H2, H3, H4, H5, H6, H7.
  rewrite H1, H2, H3, H4, H5, H6, H7. reflexivity.
Qed.

Lemma in_range_classified (zeros : Z) (a : arguments) :
  in_range a -> in_range (count_suspicious zeros (clamp_lower a)).
Proof.
  intros [Hv [Hu [Hl Hr]]].
  destruct (count_suspicious_fields zeros (clamp_lower a)) as [Ev [Eu El]].
  unfold in_range. rewrite Ev, Eu, El, count_suspicious_retcode.
  cbn [clamp_lower set_lower verbosity upper lower]. unfold effective_lower.
  destruct ((upper a <? lower a) && negb (upper a =? 0));
    destruct (Z.ltb_spec (retcode a) INT_MAX);
    destruct (0 <? zeros); cbn [andb]; lia.
Qed.

Lemma parse_opt_in_range (key : Z) (arg : string) (st : argp_state) (w : world) :
  in_range (input st) -> in_range (args_of (parse_opt key arg st w)).
Proof.
  intros Hin. pose proof Hin as [Hv [Hu [Hl Hr]]].
  destruct (Z.eq_dec key ARGP_KEY_INIT) as [->|H1].
  { rewrite parse_opt_INIT. unfold in_range, args_of, INT_MAX, ULONG_MAX. cbn. lia. }
  destruct (Z.eq_dec key key_v) as [->|H2].
  { rewrite parse_opt_v. unfold args_of. cbn [fst snd].
    destruct (Z.ltb_spec (verbosity (input st)) INT_MAX); [|exact Hin].
    unfold in_range. cbn [set_verbosity verbosity upper lower retcode]. lia. }
  destruct (Z.eq_dec key key_u) as [->|H3].
  { rewrite parse_opt_u. cbv zeta. pose proof (strtoul_range arg) as Hs.
    destruct (nonempty (snd (strtoul arg))); unfold args_of, in_range;
      cbn [fst snd set_upper verbosity upper lower retcode]; lia. }
  destruct (Z.eq_dec key key_l) as [->|H4].
  { rewrite parse_opt_l. cbv zeta. pose proof (strtoul_range arg) as Hs.
    destruct (nonempty (snd (strtoul arg))); unfold args_of, in_range;
      cbn [fst snd set_lower verbosity upper lower retcode]; lia. }
  destruct (Z.eq_dec key ARGP_KEY_ARG) as [->|H5].
  { destruct (fopen w arg) as [fp|errno] eqn:Hfp.
    - rewrite (parse_opt_file _ _ _ fp Hfp). cbv zeta. unfold args_of. cbn [fst snd].
      apply in_range_classified, Hin.
    - rewrite (parse_opt_open_failed _ _ _ errno Hfp). exact Hin. }
  destruct (Z.eq_dec key ARGP_KEY_NO_ARGS) as [->|H6].
  { rewrite parse_opt_stdin. cbv zeta. unfold args_of. cbn [fst snd].
    apply in_range_classified, Hin. }
  destruct (Z.eq_dec key ARGP_KEY_ERROR) as [->|H7].
  { rewrite parse_opt_ERROR. exact Hin. }
  rewrite parse_opt_other by assumption. exact Hin.
Qed.

Lemma parse_events_in_range (words : list string) (evs : list argp_event) :
  forall a w nargs,
  in_range a -> in_range (snd (fst (fst (parse_events words evs a w nargs)))).
Proof.
  induction evs as [|e rest IH]; intros a w nargs Hin; [exact Hin|].
  cbn [parse_events].
  pose proof (parse_opt_in_range (event_key e) (event_arg e)
                (mkState a words (event_next e)) w Hin) as Hstep.
  fold (deliver words e a w) in Hstep. unfold args_of in Hstep.
  destruct (deliver words e a w) as [[err a'] w']. cbn [fst snd] in Hstep.
  destruct (err =? 0); [apply IH, Hstep | exact Hstep].
Qed.

(** X6.  No field of [struct arguments] ever leaves its type: every call
    of [parse_opt], with any key, keeps [verbosity] and [retcode] between 0
    and [INT_MAX] and the two limits within [unsigned long]; and so at the
    end of every run, whatever the command line and the files, all four
    fields are in range. *)
Theorem arguments_stay_in_range (key : Z) (arg : string) (st : argp_state) (w : world)
  (u : arguments) (words : list string) (evs : list argp_event) :
  (in_range (input st) -> in_range (args_of (parse_opt key arg st w))) /\
  in_range (args_of (argp_parse words evs u w)).
Proof.
  split; [apply parse_opt_in_range|].
  assert (Hinit : in_range (mkArguments 0 0 1 0)).
  { unfold in_range, INT_MAX, ULONG_MAX. cbn. lia. }
  pose proof (parse_events_in_range words evs (mkArguments 0 0 1 0) w 0 Hinit) as H.
  destruct (parse_events words evs (mkArguments 0 0 1 0) w 0)
    as [[[err a] w'] nargs] eqn:Hpe. cbn [fst snd] in H.
  destruct (Z.eq_dec err 0) as [->|Hne].
  - destruct nargs as [|k].
    + rewrite (argp_parse_no_args _ _ u _ _ _ Hpe).
      apply (parse_opt_in_range ARGP_KEY_NO_ARGS EmptyString
               (mkState a words (List.length words)) w' H).
    + rewrite (argp_parse_with_args _ _ u _ _ _ _ Hpe). exact H.
  - rewrite (argp_parse_failed _ _ u _ _ _ _ _ Hpe Hne). exact H.
Qed.

Lemma arguments_stay_in_range_witness :
  in_range (args_of (parse_opt key_v EmptyString
                       (mkState (mkArguments INT_MAX 0 1 INT_MAX) [] 0) sample_world)) /\
  in_range (args_of (argp_parse ["zcount"; "-u"; "-1"; "three"]%string
                       [Option_u "-1" 3; Argument "three" 4]
                       (mkArguments (-7) (-7) (-7) (-7)) sample_world)).
Proof.
  destruct (arguments_stay_in_range key_v EmptyString
              (mkState (mkArguments INT_MAX 0 1 INT_MAX) [] 0) sample_world
              (mkArguments (-7) (-7) (-7) (-7)) ["zcount"; "-u"; "-1"; "three"]%string
              [Option_u "-1" 3; Argument "three" 4]) as [H1 H2].
  split; [apply H1|exact H2].
  unfold in_range, INT_MAX, ULONG_MAX. cbn. lia.
Defined.

Lemma set_verbosity_same (a : arguments) : set_verbosity (verbosity a) a = a.
Proof. destruct a; reflexivity. Qed.

(** X7.  Verbosity flags add up and saturate: after [n] flags in a row
    [verbosity] is its former value plus [n], or [INT_MAX] when that would be
    more; nothing else changes and parsing goes on with the next item. *)
Theorem verbosity_flags_saturate (words : list string) (flags rest : list argp_event) :
  forall (a : arguments) (w : world) (nargs : nat),
  forallb is_verbose_flag flags = true ->
  verbosity a <= INT_MAX ->
  parse_events words (flags ++ rest) a w nargs =
  parse_events words rest
    (set_verbosity (Z.min INT_MAX (verbosity a + Z.of_nat (List.length flags))) a) w nargs.
Proof.
  induction flags as [|e flags IH]; intros a w nargs Hfl Hv.
  - cbn [app List.length Z.of_nat]. rewrite Z.add_0_r, Z.min_r by lia.
    rewrite set_verbosity_same. reflexivity.
  - cbn [forallb] in Hfl. apply andb_prop in Hfl as [He Hfl].
    destruct e as [n| | |]; try discriminate.
    cbn [app]. rewrite (parse_events_ok _ _ _ _ _ _ _ _ (deliver_v words n a w)).
    cbn [is_argument List.length]. rewrite Nat2Z.inj_succ.
    destruct (Z.ltb_spec (verbosity a) INT_MAX).
    + rewrite IH by (trivial; cbn [set_verbosity verbosity]; lia).
      match goal with
      | |- parse_events _ _ ?x _ _ = parse_events _ _ ?y _ _ =>
          replace x with y; [reflexivity|]
      end.
      unfold set_verbosity. cbn [verbosity upper lower retcode]. f_equal. lia.
    + rewrite IH by (trivial; lia).
      match goal with
      | |- parse_events _ _ ?x _ _ = parse_events _ _ ?y _ _ =>
          replace x with y; [reflexivity|]
      end.
      unfold set_verbosity. f_equal. lia.
Qed.

Lemma verbosity_flags_saturate_witness :
  parse_events ["zcount"; "-vvv"; "one"]%string
    ([Option_v 1; Option_v 1; Option_v 2] ++ [Argument "one" 3])
    (mkArguments (INT_MAX - 2) 0 1 0) sample_world 0 =
  parse_events ["zcount"; "-vvv"; "one"]%string [Argument "one" 3]
    (set_verbosity (Z.min INT_MAX (INT_MAX - 2 + 3)) (mkArguments (INT_MAX - 2) 0 1 0))
    sample_world 0.
Proof.
  apply (verbosity_flags_saturate ["zcount"; "-vvv"; "one"]%string
           [Option_v 1; Option_v 1; Option_v 2] [Argument "one" 3]
           (mkArguments (INT_MAX - 2) 0 1 0) sample_world 0%nat eq_refl).
  cbn [verbosity]. lia.
Defined.

(** An item other than a limit option leaves the default limits alone and
    does not fail. *)
Lemma deliver_default_limits (words : list string) (e : argp_event)
  (a : arguments) (w : world) :
  is_limit_option e = false -> upper a = 0 -> lower a = 1 ->
  err_of (deliver words e a w) = 0 /\
  upper (args_of (deliver words e a w)) = 0 /\
  lower (args_of (deliver words e a w)) = 1.
Proof.
  intros He Hu Hl. destruct e as [n|arg n|arg n|arg n]; try discriminate.
  - rewrite deliver_v. unfold err_of, args_of. cbn [fst snd].
    destruct (verbosity a <? INT_MAX); cbn [set_verbosity upper lower]; auto.
  - destruct (fopen w arg) as [fp|errno] eqn:Hfp.
    + rewrite (deliver_file _ _ _ _ _ fp Hfp). unfold err_of, args_of. cbn [fst snd].
      destruct (count_suspicious_fields (countZB fp (upper a)) (clamp_lower a))
        as [_ [Eu El]].
      rewrite Eu, El. cbn [clamp_lower set_lower upper lower].
      unfold effective_lower. rewrite Hu, Hl. auto.
    + rewrite (deliver_open_failed _ _ _ _ _ errno Hfp). auto.
Qed.

Lemma run_default_limits (words : list string) (evs : list argp_event) :
  forall a w nargs,
  forallb (fun e => negb (is_limit_option e)) evs = true ->
  upper a = 0 -> lower a = 1 ->
  Forall (fun s => upper (snd s) = 0 /\ lower (snd s) = 1) (classified_by words evs a w) /\
  upper (snd (fst (fst (parse_events words evs a w nargs)))) = 0 /\
  lower (snd (fst (fst (parse_events words evs a w nargs)))) = 1.
Proof.
  induction evs as [|e rest IH]; intros a w nargs Hevs Hu Hl.
  - cbn. auto.
  - cbn [forallb] in Hevs. apply andb_prop in Hevs as [He Hevs].
    apply negb_true_iff in He.
    destruct (deliver_default_limits words e a w He Hu Hl) as [Herr [Hu' Hl']].
    cbn [classified_by parse_events]. unfold err_of, args_of in *.
    destruct (deliver words e a w) as [[err a'] w']. cbn [fst snd] in *. subst err.
    change (0 =? 0) with true. cbv iota.
    destruct (IH a' w' (if is_argument e then S nargs else nargs) Hevs Hu' Hl')
      as [Hall Hfin].
    split; [|exact Hfin].
    apply Forall_app. split; [|exact Hall].
    destruct e as [| | |arg n]; try apply Forall_nil.
    destruct (fopen w arg); [|apply Forall_nil].
    apply Forall_cons; [cbn [snd]; auto | apply Forall_nil].
Qed.

Lemma counts_agree_at_default_limits (l : list (Z * arguments)) :
  Forall (fun s => upper (snd s) = 0 /\ lower (snd s) = 1) l ->
  count_corrupted l = count_with_zeros l.
Proof.
  intros H. unfold count_corrupted, count_with_zeros. do 2 f_equal.
  induction H as [|[z a] l [Hu Hl] Hall IH]; [reflexivity|].
  cbn [snd] in Hu, Hl. cbn [filter fst snd]. rewrite IH.
  replace (classified_corrupted a z) with (0 <? z); [reflexivity|].
  unfold classified_corrupted, effective_lower. rewrite Hu, Hl.
  cbn [Z.ltb Z.eqb Z.compare andb negb].
  destruct (Z.ltb_spec 0 z), (Z.leb_spec 1 z); lia || reflexivity.
Qed.

(** X8.  On a command line without [-u] and [-l] the help text is right:
    [main] returns the number of sources classified as corrupted (those
    with at least [lower = 1] zero bytes counted), capped at [INT_MAX]. *)
Theorem default_limits_exit_code (u : arguments) (words : list string)
  (evs : list argp_event) (w : world) :
  forallb (fun e => negb (is_limit_option e)) evs = true ->
  fst (main u words evs w) = Z.min INT_MAX (count_corrupted (sources_of_run words evs w)).
Proof.
  intros Hevs. rewrite main_returns_sources_with_zero_bytes. f_equal. symmetry.
  apply counts_agree_at_default_limits. unfold sources_of_run.
  destruct (run_default_limits words evs (mkArguments 0 0 1 0) w 0 Hevs eq_refl eq_refl)
    as [Hall [Hu Hl]].
  destruct (parse_events words evs (mkArguments 0 0 1 0) w 0) as [[[err a] w'] nargs].
  cbn [fst snd] in Hu, Hl.
  apply Forall_app. split; [exact Hall|].
  destruct (err =? 0); [|apply Forall_nil].
  destruct nargs; [|apply Forall_nil].
  apply Forall_cons; [cbn [snd]; auto | apply Forall_nil].
Qed.

Lemma default_limits_exit_code_witness :
  fst (main (mkArguments 9 9 9 9) ["zcount"; "-v"; "clean"; "one"; "five"]%string
         [Option_v 2; Argument "clean" 3; Argument "one" 4; Argument "five" 5]
         sample_world) =
  Z.min INT_MAX (count_corrupted
    (sources_of_run ["zcount"; "-v"; "clean"; "one"; "five"]%string
       [Option_v 2; Argument "clean" 3; Argument "one" 4; Argument "five" 5]
       sample_world)).
Proof.
  apply default_limits_exit_code. reflexivity.
Defined.

(** At verbosity 0 an item that parses or opens is handled in silence. *)
Lemma deliver_quiet (words : list string) (e : argp_event) (a : arguments) (w : world) :
  verbosity a = 0 -> quiet_item (fopen w) e = true ->
  err_of (deliver words e a w) = 0 /\
  verbosity (args_of (deliver words e a w)) = 0 /\
  printed (world_of (deliver words e a w)) = printed w /\
  fopen (world_of (deliver words e a w)) = fopen w.
Proof.
  intros Hv Hq. destruct e as [n|arg n|arg n|arg n]; cbn [quiet_item] in Hq.
  - discriminate.
  - rewrite deliver_u. apply negb_true_iff in Hq. rewrite Hq. auto.
  - rewrite deliver_l. apply negb_true_iff in Hq. rewrite Hq. auto.
  - destruct (fopen w arg) as [fp|errno] eqn:Hfp; [|discriminate].
    rewrite (deliver_file _ _ _ _ _ fp Hfp).
    unfold err_of, args_of, world_of. cbn [fst snd print_all printed fopen].
    destruct (count_suspicious_fields (countZB fp (upper a)) (clamp_lower a)) as [Ev _].
    rewrite Ev. cbn [clamp_lower set_lower verbosity].
    unfold file_report. rewrite Hv. cbn [Z.leb Z.compare]. rewrite app_nil_r. auto.
Qed.

Lemma parse_events_quiet (words : list string) (evs : list argp_event) :
  forall a w nargs,
  verbosity a = 0 -> forallb (quiet_item (fopen w)) evs = true ->
  let r := parse_events words evs a w nargs in
  fst (fst (fst r)) = 0 /\ verbosity (snd (fst (fst r))) = 0 /\
  printed (snd (fst r)) = printed w.
Proof.
  induction evs as [|e rest IH]; intros a w nargs Hv Hq; cbv zeta.
  - cbn. auto.
  - cbn [forallb] in Hq. apply andb_prop in Hq as [He Hq].
    destruct (deliver_quiet words e a w Hv He) as [Herr [Hv' [Hp Hf]]].
    cbn [parse_events]. unfold err_of, args_of, world_of in *.
    destruct (deliver words e a w) as [[err a'] w']. cbn [fst snd] in *. subst err.
    change (0 =? 0) with true. cbv iota.
    rewrite <- Hf in Hq.
    specialize (IH a' w' (if is_argument e then S nargs else nargs) Hv' Hq).
    cbv zeta in IH. rewrite Hp in IH. exact IH.
Qed.

(** X9.  Without a [-v] flag the program is silent: when every limit
    option has a value that [strtoul] parses to the end and every file
    opens, a run prints nothing at all, on either stream, whatever the files
    or standard input hold. *)
Theorem silent_without_verbose_flag (u : arguments) (words : list string)
  (evs : list argp_event) (w : world) :
  forallb (quiet_item (fopen w)) evs = true ->
  printed (snd (main u words evs w)) = printed w.
Proof.
  intros Hq. unfold main.
  destruct (parse_events_quiet words evs (mkArguments 0 0 1 0) w 0 eq_refl Hq)
    as [Herr [Hv Hp]].
  destruct (parse_events words evs (mkArguments 0 0 1 0) w 0)
    as [[[err a] w'] nargs] eqn:Hpe. cbn [fst snd] in *. subst err.
  destruct nargs as [|k].
  - rewrite (argp_parse_no_args _ _ u _ _ _ Hpe), parse_opt_stdin. cbv zeta.
    cbn [snd print_all printed set_stdin input].
    unfold stdin_report. rewrite Hv. cbn [Z.leb Z.compare].
    rewrite app_nil_r. exact Hp.
  - rewrite (argp_parse_with_args _ _ u _ _ _ _ Hpe). exact Hp.
Qed.

Lemma silent_without_verbose_flag_witness :
  printed (snd (main (mkArguments 9 9 9 9) ["zcount"; "-l"; "2"; "three"; "clean"]%string
                  [Option_l "2" 3; Argument "three" 4; Argument "clean" 5]
                  sample_world)) = printed sample_world.
Proof.
  apply silent_without_verbose_flag. reflexivity.
Defined.

(** X10.  At verbosity 1 only corrupted sources are reported: the
    classification of a file or of standard input prints the "seems
    corrupted" line on the error stream when the count is at least the
    clamped [lower], prints nothing otherwise, and never writes to standard
    output. *)
Theorem verbosity_one_reports_only_corrupted (arg : string) (st : argp_state) (w : world) :
  let a := input st in
  let lower' := if (upper a <? lower a) && negb (upper a =? 0) then upper a else lower a in
  verbosity a = 1 ->
  (forall fp, fopen w arg = Opened fp ->
     let zeros := countZB fp (upper a) in
     printed (world_of (parse_opt ARGP_KEY_ARG arg st w)) =
     printed w ++ (if lower' <=? zeros
                   then [(stderr, msg_file_corrupted arg zeros)] else [])) /\
  (let zeros := countZB (stdin w) (upper a) in
   printed (world_of (parse_opt ARGP_KEY_NO_ARGS arg st w)) =
   printed w ++ (if lower' <=? zeros
                 then [(stderr, msg_stdin_corrupted zeros)] else [])).
Proof.
  cbv zeta. intros Hv. split.
  - intros fp Hfp. rewrite (parse_opt_file _ _ _ fp Hfp). cbv zeta.
    unfold world_of. cbn [snd print_all printed]. f_equal.
    unfold file_report, classified_corrupted, effective_lower. rewrite Hv.
    cbn [Z.leb Z.eqb Z.compare Pos.eqb]. reflexivity.
  - rewrite parse_opt_stdin. cbv zeta.
    unfold world_of. cbn [snd print_all printed set_stdin]. f_equal.
    unfold stdin_report, classified_corrupted, effective_lower. rewrite Hv.
    cbn [Z.leb Z.eqb Z.compare Pos.eqb]. reflexivity.
Qed.

Lemma verbosity_one_reports_only_corrupted_witness :
  printed (world_of (parse_opt ARGP_KEY_ARG "one"
                       (mkState (mkArguments 1 0 2 0) ["zcount"; "one"]%string 2)
                       sample_world)) = [] /\
  printed (world_of (parse_opt ARGP_KEY_ARG "three"
                       (mkState (mkArguments 1 0 2 0) ["zcount"; "three"]%string 2)
                       sample_world)) = [(stderr, msg_file_corrupted "three" 3)].
Proof.
  split.
  - exact (proj1 (verbosity_one_reports_only_corrupted "one"
             (mkState (mkArguments 1 0 2 0) ["zcount"; "one"]%string 2) sample_world
             eq_refl) [x61; x00; x62] eq_refl).
  - exact (proj1 (verbosity_one_reports_only_corrupted "three"
             (mkState (mkArguments 1 0 2 0) ["zcount"; "three"]%string 2) sample_world
             eq_refl) [x00; x61; x00; x00] eq_refl).
Defined.

(** The calls for the items never touch standard input. *)
Lemma deliver_keeps_stdin (words : list string) (e : argp_event) (a : arguments) (w : world) :
  stdin (world_of (deliver words e a w)) = stdin w.
Proof.
  destruct e as [n|arg n|arg n|arg n].
  - rewrite deliver_v. reflexivity.
  - rewrite deliver_u. destruct (nonempty (snd (strtoul arg))); reflexivity.
  - rewrite deliver_l. destruct (nonempty (snd (strtoul arg))); reflexivity.
  - destruct (fopen w arg) as [fp|errno] eqn:Hfp.
    + rewrite (deliver_file _ _ _ _ _ fp Hfp). reflexivity.
    + rewrite (deliver_open_failed _ _ _ _ _ errno Hfp). reflexivity.
Qed.

Lemma parse_events_keeps_stdin (words : list string) (evs : list argp_event) :
  forall a w nargs, stdin (snd (fst (parse_events words evs a w nargs))) = stdin w.
Proof.
  induction evs as [|e rest IH]; intros a w nargs; [reflexivity|].
  cbn [parse_events]. pose proof (deliver_keeps_stdin words e a w) as H.
  unfold world_of in H. destruct (deliver words e a w) as [[err a'] w'].
  cbn [snd] in H. destruct (err =? 0); [rewrite IH|]; exact H.
Qed.

(** When all items are handled, the number of non-option arguments handled
    is zero exactly when there is none among the items. *)
Lemma parse_events_nargs (words : list string) (evs : list argp_event) :
  forall a w nargs,
  fst (fst (fst (parse_events words evs a w nargs))) = 0 ->
  snd (parse_events words evs a w nargs) =
  (nargs + List.length (filter is_argument evs))%nat.
Proof.
  induction evs as [|e rest IH]; intros a w nargs Herr.
  - cbn. lia.
  - cbn [parse_events filter] in *.
    destruct (deliver words e a w) as [[err a'] w'].
    destruct (Z.eqb_spec err 0) as [->|Hne]; [|cbn [fst] in Herr; contradiction].
    rewrite IH by exact Herr.
    destruct (is_argument e); cbn [List.length]; lia.
Qed.

(** X11.  Standard input is read only when there is no file to read: a
    run with a non-option argument among its items, or one in which
    parsing fails, leaves standard input untouched (also when no file could
    be opened); a run without non-option arguments in which parsing
    succeeds leaves of standard input what [countZB] leaves. *)
Theorem stdin_read_only_without_arguments (u : arguments) (words : list string)
  (evs : list argp_event) (w : world) :
  let r := argp_parse words evs u w in
  (existsb is_argument evs = true -> stdin (world_of r) = stdin w) /\
  (err_of r <> 0 -> stdin (world_of r) = stdin w) /\
  (existsb is_argument evs = false -> err_of r = 0 ->
   stdin (world_of r) = snd (countZB_run (stdin w) (upper (args_of r)))).
Proof.
  cbv zeta.
  pose proof (parse_events_keeps_stdin words evs (mkArguments 0 0 1 0) w 0) as Hst.
  pose proof (parse_events_nargs words evs (mkArguments 0 0 1 0) w 0) as Hn.
  destruct (parse_events words evs (mkArguments 0 0 1 0) w 0)
    as [[[err a] w'] nargs] eqn:Hpe. cbn [fst snd] in Hst, Hn.
  assert (Hex : existsb is_argument evs = true <-> filter is_argument evs <> []).
  { clear. induction evs as [|e evs IH]; cbn [existsb filter].
    - split; [discriminate | intros H; contradiction].
    - destruct (is_argument e); cbn [orb]; [split; [discriminate | reflexivity]|exact IH]. }
  destruct (Z.eq_dec err 0) as [->|Hne].
  - specialize (Hn eq_refl). destruct nargs as [|k].
    + rewrite (argp_parse_no_args _ _ u _ _ _ Hpe), parse_opt_stdin. cbv zeta.
      unfold world_of, args_of, err_of.
      cbn [fst snd print_all set_stdin stdin input].
      destruct (count_suspicious_fields (countZB (stdin w') (upper a)) (clamp_lower a))
        as [_ [Eu _]].
      rewrite Eu. cbn [clamp_lower set_lower upper]. rewrite Hst.
      split; [|split].
      * intros He. apply Hex in He.
        destruct (filter is_argument evs); [contradiction | discriminate].
      * intros He. contradiction.
      * reflexivity.
    + rewrite (argp_parse_with_args _ _ u _ _ _ _ Hpe).
      unfold world_of, err_of. cbn [fst snd].
      split; [intros _; exact Hst|]. split; [intros _; exact Hst|].
      intros He _. exfalso.
      destruct (filter is_argument evs) as [|x l].
      * cbn in Hn. discriminate.
      * assert (Ht : existsb is_argument evs = true) by (apply Hex; discriminate).
        rewrite Ht in He. discriminate.
  - rewrite (argp_parse_failed _ _ u _ _ _ _ _ Hpe Hne).
    unfold world_of, err_of. cbn [fst snd fprintf stdin].
    split; [intros _; exact Hst|]. split; [intros _; exact Hst|].
    intros _ He. contradiction.
Qed.

Lemma stdin_read_only_without_arguments_witness :
  let w := mkWorld sample_fopen [x00; x61; x00; x62] [] in
  stdin (world_of (argp_parse ["zcount"; "missing"]%string [Argument "missing" 2]
                     (mkArguments 9 9 9 9) w)) = [x00; x61; x00; x62] /\
  stdin (world_of (argp_parse ["zcount"; "-u"; "1"]%string [Option_u "1" 3]
                     (mkArguments 9 9 9 9) w)) = [x00; x62].
Proof.
  cbv zeta. split.
  - exact (proj1 (stdin_read_only_without_arguments (mkArguments 9 9 9 9)
             ["zcount"; "missing"]%string [Argument "missing" 2]
             (mkWorld sample_fopen [x00; x61; x00; x62] [])) eq_refl).
  - exact (proj2 (proj2 (stdin_read_only_without_arguments (mkArguments 9 9 9 9)
             ["zcount"; "-u"; "1"]%string [Option_u "1" 3]
             (mkWorld sample_fopen [x00; x61; x00; x62] []))) eq_refl eq_refl).
Defined.

(** X12.  Once [lower <= upper] or [upper = 0] holds, a classification
    changes nothing of [struct arguments] but [retcode]; and as every
    classification leaves that state behind, the sanity check acts at most
    once in a row of files: a file classified right after another finds
    [lower] and [upper] as the first left them. *)
Theorem classification_changes_only_retcode (arg : string) (st : argp_state) (w : world) :
  let a := input st in
  ((lower a <= upper a \/ upper a = 0) ->
   (forall fp, fopen w arg = Opened fp ->
      set_retcode (retcode a) (args_of (parse_opt ARGP_KEY_ARG arg st w)) = a) /\
   set_retcode (retcode a) (args_of (parse_opt ARGP_KEY_NO_ARGS arg st w)) = a) /\
  (forall fp, fopen w arg = Opened fp ->
     let r := parse_opt ARGP_KEY_ARG arg st w in
     forall arg2 n2 fp2, fopen (world_of r) arg2 = Opened fp2 ->
       let r2 := parse_opt ARGP_KEY_ARG arg2 (mkState (args_of r) (argv st) n2) (world_of r) in
       lower (args_of r2) = lower (args_of r) /\ upper (args_of r2) = upper (args_of r) /\
       verbosity (args_of r2) = verbosity (args_of r)).
Proof.
  cbv zeta.
  assert (Hstep : forall zeros b, (lower b <= upper b \/ upper b = 0) ->
            set_retcode (retcode b) (count_suspicious zeros (clamp_lower b)) = b).
  { intros zeros [v up lo r] Hb. cbn [lower upper] in Hb.
    unfold count_suspicious, clamp_lower, effective_lower, set_lower, set_retcode.
    cbn [verbosity upper lower retcode].
    assert (Hc : (up <? lo) && negb (up =? 0) = false).
    { destruct (Z.ltb_spec up lo), (Z.eqb_spec up 0); cbn [andb negb]; lia || reflexivity. }
    rewrite Hc. destruct ((0 <? zeros) && (r <? INT_MAX)); reflexivity. }
  split.
  - intros Ha. split.
    + intros fp Hfp. rewrite (parse_opt_file _ _ _ fp Hfp). cbv zeta.
      unfold args_of. cbn [fst snd]. apply Hstep, Ha.
    + rewrite parse_opt_stdin. cbv zeta. unfold args_of. cbn [fst snd]. apply Hstep, Ha.
  - intros fp Hfp. rewrite (parse_opt_file _ _ _ fp Hfp). cbv zeta.
    unfold args_of, world_of. cbn [fst snd]. intros arg2 n2 fp2 Hfp2.
    rewrite (parse_opt_file _ _ _ fp2 Hfp2). cbv zeta. cbn [fst snd input].
    set (a1 := count_suspicious (countZB fp (upper (input st))) (clamp_lower (input st))).
    destruct (count_suspicious_fields (countZB fp2 (upper a1)) (clamp_lower a1))
      as [Ev [Eu El]].
    rewrite Ev, Eu, El. cbn [clamp_lower set_lower verbosity upper lower].
    repeat split.
    destruct (count_suspicious_fields (countZB fp (upper (input st)))
                (clamp_lower (input st))) as [_ [_ El1]].
    unfold a1 at 2. rewrite El1. cbn [clamp_lower set_lower lower].
    apply effective_lower_idem.
Qed.

Lemma classification_changes_only_retcode_witness :
  set_retcode 0 (args_of (parse_opt ARGP_KEY_ARG "three"
                            (mkState (mkArguments 1 5 2 0) ["zcount"; "three"]%string 2)
                            sample_world)) = mkArguments 1 5 2 0 /\
  lower (args_of (parse_opt ARGP_KEY_ARG "one"
                    (mkState (args_of (parse_opt ARGP_KEY_ARG "three"
                                (mkState (mkArguments 0 2 9 0) ["zcount"; "three"; "one"]%string 2)
                                sample_world))
                       ["zcount"; "three"; "one"]%string 3)
                    (world_of (parse_opt ARGP_KEY_ARG "three"
                                (mkState (mkArguments 0 2 9 0) ["zcount"; "three"; "one"]%string 2)
                                sample_world)))) = 2.
Proof.
  split.
  - refine (proj1 (proj1 (classification_changes_only_retcode "three"
              (mkState (mkArguments 1 5 2 0) ["zcount"; "three"]%string 2) sample_world) _)
              [x00; x61; x00; x00] eq_refl).
    left. cbn. lia.
  - exact (proj1 (proj2 (classification_changes_only_retcode "three"
             (mkState (mkArguments 0 2 9 0) ["zcount"; "three"; "one"]%string 2) sample_world)
             [x00; x61; x00; x00] eq_refl "one"%string 3%nat [x61; x00; x62] eq_refl)).
Defined.

(** X13.  [main] never uses its local [struct arguments] before the
    callback has set all four of its fields: whatever the uninitialised
    contents, the exit code, the output and what is left of standard input
    are the same. *)
Theorem main_ignores_uninitialised (u u' : arguments) (words : list string)
  (evs : list argp_event) (w : world) :
  main u words evs w = main u' words evs w /\
  argp_parse words evs u w = argp_parse words evs u' w.
Proof.
  assert (H : argp_parse words evs u w = argp_parse words evs u' w).
  { unfold argp_parse. rewrite !parse_opt_INIT. reflexivity. }
  split; [|exact H]. unfold main. rewrite H. reflexivity.
Qed.

(** X14.  No false alarm: a file goes into the exit code only if it really
    holds a zero byte, and when its classification writes a line to the
    error stream the file really holds at least the clamped [lower] zero
    bytes. *)
Theorem flagged_file_has_zero_bytes (arg : string) (st : argp_state) (w : world) (fp : FILE) :
  fopen w arg = Opened fp ->
  let a := input st in
  let lower' := if (upper a <? lower a) && negb (upper a =? 0) then upper a else lower a in
  let r := parse_opt ARGP_KEY_ARG arg st w in
  (retcode (args_of r) <> retcode a -> 0 < zero_bytes fp) /\
  (forall line, printed (world_of r) = printed w ++ [(stderr, line)] ->
     lower' <= zero_bytes fp).
Proof.
  intros Hfp. cbv zeta. rewrite (parse_opt_file _ _ _ fp Hfp). cbv zeta.
  unfold args_of, world_of. cbn [fst snd print_all printed].
  pose proof (countZB_le_zero_bytes fp (upper (input st))) as Hle.
  split.
  - rewrite count_suspicious_retcode.
    destruct (Z.ltb_spec 0 (countZB fp (upper (input st)))); cbn [andb]; [lia|].
    intros Hne. contradiction Hne. reflexivity.
  - intros line Hline. apply app_inv_head in Hline.
    unfold file_report, classified_corrupted, effective_lower in Hline.
    destruct (verbosity (input st) <=? 0); [discriminate|].
    match type of Hline with
    | (if ?c <=? ?z then _ else _) = _ => destruct (Z.leb_spec c z); [lia|]
    end.
    destruct (verbosity (input st) =? 1); discriminate.
Qed.

Lemma flagged_file_has_zero_bytes_witness :
  0 < zero_bytes [x00; x61; x00; x00] /\ 2 <= zero_bytes [x00; x61; x00; x00].
Proof.
  destruct (flagged_file_has_zero_bytes "three"
              (mkState (mkArguments 1 0 2 0) ["zcount"; "three"]%string 2) sample_world
              [x00; x61; x00; x00] eq_refl) as [H1 H2].
  split.
  - apply H1. cbn. discriminate.
  - apply (H2 (msg_file_corrupted "three" 3)). reflexivity.
Defined.

Lemma parse_events_app (words : list string) (pre rest : list argp_event) :
  forall a w nargs a1 w1 k,
  parse_events words pre a w nargs = (0, a1, w1, k) ->
  parse_events words (pre ++ rest) a w nargs = parse_events words rest a1 w1 k.
Proof.
  induction pre as [|e pre IH]; intros a w nargs a1 w1 k H.
  - cbn in H. injection H as <- <- <-. reflexivity.
  - cbn [app parse_events] in *.
    destruct (deliver words e a w) as [[err a'] w'].
    destruct (Z.eqb_spec err 0) as [->|Hne].
    + apply IH, H.
    + injection H as He. contradiction.
Qed.

(** X15.  A limit option whose value [strtoul] does not parse to the end
    ends the run where it stands: after the items before it have been
    handled, [argp_parse] prints the two diagnostics (the rejected word,
    then "Argument parsing has been terminated due to an error!"), returns
    [EINVAL] and handles nothing that follows; the part of the value that
    did parse is in the field all the same. *)
Theorem rejected_option_ends_run (u : arguments) (words : list string)
  (pre rest : list argp_event) (arg : string) (n : nat)
  (w w1 : world) (a1 : arguments) (k : nat) :
  parse_events words pre (mkArguments 0 0 1 0) w 0 = (0, a1, w1, k) ->
  (strtoul_consumed arg < String.length arg)%nat ->
  let diagnostic := msg_not_integer (nth (n - 1) words EmptyString) in
  argp_parse words (pre ++ Option_u arg n :: rest) u w =
    (EINVAL, set_upper (fst (strtoul arg)) a1,
     fprintf stderr msg_terminated (fprintf stderr diagnostic w1)) /\
  argp_parse words (pre ++ Option_l arg n :: rest) u w =
    (EINVAL, set_lower (fst (strtoul arg)) a1,
     fprintf stderr msg_terminated (fprintf stderr diagnostic w1)).
Proof.
  intros Hpre Hpartly. cbv zeta. apply nonempty_tail_iff in Hpartly.
  split.
  - apply (argp_parse_failed _ _ _ _ _ _ k); [|discriminate].
    rewrite (parse_events_app _ _ _ _ _ _ _ _ _ Hpre).
    apply parse_events_stop; [|discriminate].
    rewrite deliver_u, Hpartly. reflexivity.
  - apply (argp_parse_failed _ _ _ _ _ _ k); [|discriminate].
    rewrite (parse_events_app _ _ _ _ _ _ _ _ _ Hpre).
    apply parse_events_stop; [|discriminate].
    rewrite deliver_l, Hpartly. reflexivity.
Qed.

Lemma rejected_option_ends_run_witness :
  argp_parse ["zcount"; "-v"; "-l"; "7up"; "three"]%string
    ([Option_v 2] ++ Option_l "7up" 4 :: [Argument "three" 5])
    (mkArguments 9 9 9 9) sample_world =
  (EINVAL, mkArguments 1 0 7 0,
   fprintf stderr msg_terminated (fprintf stderr (msg_not_integer "7up") sample_world)).
Proof.
  refine (proj2 (rejected_option_ends_run (mkArguments 9 9 9 9)
            ["zcount"; "-v"; "-l"; "7up"; "three"]%string [Option_v 2] [Argument "three" 5]
            "7up"%string 4%nat sample_world sample_world (mkArguments 1 0 1 0) 0%nat
            eq_refl _)).
  cbn. lia.
Defined.
